(** * libgavran: platform abstraction layer (pal.c) and db.h primitives

    A shallow embedding of

    - [src/include/gavran/db.h]: the free-space bit primitives [set_bit],
      [is_bit_set], [clear_bit], the page count [TO_PAGES] and the
      layout of [page_t], [file_header_t], [page_crypto_metadata_t],
      [page_metadata_t], [db_options_t];
    - [src/src/pal.c]: [get_file_name], [get_file_handle_size],
      [set_file_name], [fsync_parent_directory], [ensure_file_path],
      [create_file], [get_file_size], [map_file], [unmap_file],
      [close_file], [ensure_file_minimum_size].

    Integers of C are [Z] with the wrap-around written out, arrays are
    lists accessed with stdpp's lookup and insert, and an access outside
    an array is undefined behaviour.  The functions of pal.c run in a
    monad over the state of the process (kernel, [errno], error context,
    calls made); the kernel is a parameter, behind the system calls the
    file makes.  Two kernels instantiate it for the examples: a
    reference file system, also used for the properties that depend on
    what [stat] and [open] do, and a kernel that answers from a
    script. *)

From Stdlib Require Import ZArith Lia Bool Ascii String.
From stdpp Require Import base option list gmap strings.

Local Open Scope Z_scope.

(** ** Machine integers *)

(** [uint64_t] and [size_t] (LP64): values are taken modulo [2^64]. *)
Definition u64 (z : Z) : Z := z mod 2 ^ 64.

(** ** Free-space bit primitives (db.h, lines 217-227) *)

Module Bitmap.

(** [pos / 64] as an index into the [uint64_t] buffer. *)
Definition word_index (pos : Z) : nat := Z.to_nat (pos / 64).

(** [1UL << pos % 64]: [%] binds tighter than [<<]. *)
Definition bit_mask (pos : Z) : Z := u64 (Z.shiftl 1 (pos mod 64)).

(** [buffer[pos / 64] |= (1UL << pos % 64);] *)
Definition set_bit (buffer : list Z) (pos : Z) : option (list Z) :=
  w ← buffer !! word_index pos;
  Some (<[word_index pos := Z.lor w (bit_mask pos)]> buffer).

(** [return (buffer[pos / 64] & (1UL << pos % 64)) != 0;] *)
Definition is_bit_set (buffer : list Z) (pos : Z) : option bool :=
  w ← buffer !! word_index pos;
  Some (negb (Z.land w (bit_mask pos) =? 0)).

(** [buffer[pos / 64] ^= (1UL << pos % 64);] *)
Definition clear_bit (buffer : list Z) (pos : Z) : option (list Z) :=
  w ← buffer !! word_index pos;
  Some (<[word_index pos := Z.lxor w (bit_mask pos)]> buffer).

(** A buffer of [n] pages' worth of bits holds position [pos]. *)
Definition in_bounds (buffer : list Z) (pos : Z) : Prop :=
  0 <= pos /\ (word_index pos < length buffer)%nat.

End Bitmap.

(** ** Pages (db.h, lines 22-30) *)
Module Paging.

Definition MIN (a b : Z) : Z := if a <? b then a else b.
Definition MAX (a b : Z) : Z := if a >? b then a else b.

Definition PAGE_SIZE : Z := 8192.
Definition PAGE_ALIGNMENT : Z := 4096.

(** [TO_PAGES(size)] for a [size] of type [uint64_t]: the quotient, the
    remainder and the sum are then [uint64_t] too. *)
Definition TO_PAGES (size : Z) : Z :=
  MAX (u64 (size / PAGE_SIZE + (if negb (size mod PAGE_SIZE =? 0) then 1 else 0)))
      1.

End Paging.

(** ** C object layout (x86-64 System V, LP64) *)

Module Layout.

#[local] Unset Elimination Schemes.

Inductive ctype : Type :=
| Tuint8
| Tchar
| Tint
| Tuint32
| Tuint64
| Tpacked_enum                      (* enum __attribute__((__packed__)), values 0..6 *)
| Tarray (elt : ctype) (n : Z)
| Tstruct (fields : list (string * ctype))
| Tunion (members : list (string * ctype)).

#[local] Set Elimination Schemes.

Definition align_up (off a : Z) : Z := ((off + a - 1) / a) * a.

Fixpoint alignof (t : ctype) : Z :=
  match t with
  | Tuint8 | Tchar | Tpacked_enum => 1
  | Tint | Tuint32 => 4
  | Tuint64 => 8
  | Tarray elt _ => alignof elt
  | Tstruct fields | Tunion fields =>
      (fix go (l : list (string * ctype)) : Z :=
         match l with
         | [] => 1
         | (_, ft) :: r => Z.max (alignof ft) (go r)
         end) fields
  end.

Fixpoint sizeof (t : ctype) : Z :=
  match t with
  | Tuint8 | Tchar | Tpacked_enum => 1
  | Tint | Tuint32 => 4
  | Tuint64 => 8
  | Tarray elt n => sizeof elt * n
  | Tstruct fields =>
      align_up
        ((fix go (l : list (string * ctype)) (off : Z) : Z :=
            match l with
            | [] => off
            | (_, ft) :: r => go r (align_up off (alignof ft) + sizeof ft)
            end) fields 0)
        (alignof t)
  | Tunion members =>
      align_up
        ((fix go (l : list (string * ctype)) : Z :=
            match l with
            | [] => 0
            | (_, ft) :: r => Z.max (sizeof ft) (go r)
            end) members)
        (alignof t)
  end.

(** Offset and type of each field of a struct, in declaration order. *)
Fixpoint field_offsets (fields : list (string * ctype)) (off : Z)
  : list (string * (Z * ctype)) :=
  match fields with
  | [] => []
  | (name, ft) :: r =>
      let o := align_up off (alignof ft) in
      (name, (o, ft)) :: field_offsets r (o + sizeof ft)
  end.

Definition fields_of (t : ctype) : list (string * ctype) :=
  match t with
  | Tstruct fields | Tunion fields => fields
  | _ => []
  end.

Fixpoint assoc {A} (name : string) (l : list (string * A)) : option A :=
  match l with
  | [] => None
  | (n, a) :: r => if String.eqb n name then Some a else assoc name r
  end.

(** [offsetof(t, name)] for a struct; every member of a union is at 0. *)
Definition offsetof (t : ctype) (name : string) : option Z :=
  match t with
  | Tstruct fields => fst <$> assoc name (field_offsets fields 0)
  | Tunion members => (fun _ => 0) <$> assoc name members
  | _ => None
  end.

(** [sizeof(((t * )0)->name)] *)
Definition field_size (t : ctype) (name : string) : option Z :=
  sizeof <$> assoc name (fields_of t).

(** Constants of libsodium's [sodium.h], which db.h includes. *)
Definition crypto_aead_aes256gcm_NPUBBYTES : Z := 12.
Definition crypto_aead_aes256gcm_ABYTES : Z := 16.
Definition crypto_generichash_BYTES : Z := 32.

(** [#define FILE_HEADER_MAGIC "GVRN!"] *)
Definition FILE_HEADER_MAGIC : string := "GVRN!".

(** db.h, lines 44-54. *)
Definition page_crypto_metadata_t : ctype :=
  Tstruct
    [("",
      Tunion
        [("aes_gcm",
          Tstruct [("nonce", Tarray Tuint8 crypto_aead_aes256gcm_NPUBBYTES);
                   ("mac", Tarray Tuint8 crypto_aead_aes256gcm_ABYTES)]);
         ("page_hash", Tarray Tuint8 crypto_generichash_BYTES)])].

(** db.h, lines 57-65: one byte, because packed with values [0..6]. *)
Definition page_flags_t : ctype := Tpacked_enum.

(** db.h, lines 67-70. *)
Definition page_metadata_common_t : ctype :=
  Tstruct [("page_flags", page_flags_t); ("padding", Tarray Tchar 31)].

(** db.h, lines 90-98. *)
Definition file_header_t : ctype :=
  Tstruct
    [("page_flags", page_flags_t);
     ("version", Tuint8);
     ("page_size_power_of_two", Tuint8);
     ("magic", Tarray Tuint8 5);
     ("number_of_pages", Tuint64);
     ("last_tx_id", Tuint64);
     ("free_space_bitmap_start", Tuint64)].

(** The anonymous union of [page_metadata_t]. *)
Definition page_metadata_semantic : ctype :=
  Tunion [("common", page_metadata_common_t); ("file_header", file_header_t)].

(** db.h, lines 72-79 (the field is spelled [cyrpto] in the source).  The
    union names [file_header_t], which the header completes only at lines
    90-98; the layout is the one of that definition. *)
Definition page_metadata_t : ctype :=
  Tstruct [("cyrpto", page_crypto_metadata_t); ("", page_metadata_semantic)].

(** An object pointer has the size and the alignment of [uint64_t]
    (LP64); an [enum] that is not packed is an [int]. *)
Definition Tpointer : ctype := Tuint64.
Definition Tenum : ctype := Tint.

(** db.h, lines 32-38. *)
Definition page_t : ctype :=
  Tstruct
    [("address", Tpointer);
     ("previous", Tpointer);
     ("page_num", Tuint64);
     ("size", Tuint32);
     ("_padding", Tarray Tuint8 4)].

Definition crypto_aead_aes256gcm_KEYBYTES : Z := 32.

(** db.h, lines 123-132. *)
Definition db_options_t : ctype :=
  Tstruct
    [("minimum_size", Tuint64);
     ("maximum_size", Tuint64);
     ("wal_size", Tuint64);
     ("encryption_key", Tarray Tuint8 crypto_aead_aes256gcm_KEYBYTES);
     ("encrypted", Tuint32);
     ("page_validation", Tenum);
     ("avoid_mmap_io", Tuint32);
     ("_padding", Tuint32)].

(** The bytes of the fields of a struct, without any padding between
    them or after them. *)
Definition fields_size (t : ctype) : Z :=
  foldr (fun f acc => sizeof f.2 + acc) 0 (fields_of t).

(** pal.c, lines 16-18: [struct pal_file_handle { int fd; }]. *)
Definition file_handle_t : ctype := Tstruct [("fd", Tint)].

End Layout.

Import Layout.

(** ** The platform abstraction layer (pal.c) *)

Module Pal.

(** *** C strings in a byte buffer *)

Definition NUL : ascii := "000"%char.
Definition SLASH : ascii := "/"%char.

(** A C string literal, as the bytes before its terminator. *)
Definition lit (s : string) : list ascii := list_ascii_of_string s.

(** The string a [char*] points to: the bytes up to the first NUL.  The
    end of the modelled buffer also ends the string. *)
Fixpoint c_str (buf : list ascii) : list ascii :=
  match buf with
  | [] => []
  | c :: r => if decide (c = NUL) then [] else c :: c_str r
  end.

Definition strlen (s : list ascii) : nat := length (c_str s).

(** [strchr(s, ch)]: offset of the first [ch] in the string at [s]. *)
Fixpoint strchr (s : list ascii) (ch : ascii) : option nat :=
  match s with
  | [] => None
  | c :: r =>
      if decide (c = ch) then Some 0%nat
      else if decide (c = NUL) then None
      else S <$> strchr r ch
  end.

(** [strrchr(s, ch)]: offset of the last [ch] in the string at [s]. *)
Fixpoint strrchr (s : list ascii) (ch : ascii) : option nat :=
  match s with
  | [] => None
  | c :: r =>
      if decide (c = NUL) then (if decide (ch = NUL) then Some 0%nat else None)
      else match strrchr r ch with
           | Some i => Some (S i)
           | None => if decide (c = ch) then Some 0%nat else None
           end
  end.

(** The first [n] bytes of the string at [s], terminator included. *)
Definition str_bytes (s : list ascii) (n : nat) : list ascii :=
  take n (c_str s ++ [NUL]).

(** [memcpy(dst + off, src, |src|)]; writing past [dst] is undefined. *)
Definition memcpy (dst : list ascii) (off : nat) (src : list ascii)
  : option (list ascii) :=
  if decide (off + length src <= length dst)%nat
  then Some (take off dst ++ src ++ drop (off + length src) dst)
  else None.

(** [*(dst + off) = c]. *)
Definition store (dst : list ascii) (off : nat) (c : ascii)
  : option (list ascii) :=
  if decide (off < length dst)%nat then Some (<[off := c]> dst) else None.

(** *** Constants of the C library headers (Linux, x86-64) *)

Definition ENOENT : Z := 2.
Definition EIO : Z := 5.
Definition EBADF : Z := 9.
Definition EEXIST : Z := 17.
Definition ENOTDIR : Z := 20.
Definition EISDIR : Z := 21.
Definition EINVAL : Z := 22.

Definition O_RDONLY : Z := 0.
Definition O_RDWR : Z := 2.
Definition O_CREAT : Z := 64.
Definition O_CLOEXEC : Z := 524288.

Definition S_IRWXU : Z := 448.
Definition S_IRUSR : Z := 256.
Definition S_IWUSR : Z := 128.

Definition S_IFMT : Z := 61440.
Definition S_IFDIR : Z := 16384.
Definition S_IFREG : Z := 32768.

Definition PROT_READ : Z := 1.
Definition PROT_WRITE : Z := 2.
Definition MAP_SHARED : Z := 1.
(** [MAP_FAILED] is [(void * ) -1]. *)
Definition MAP_FAILED : Z := 2 ^ 64 - 1.

(** The fields of [struct stat] the code reads. *)
Record stat_t : Type := { st_mode : Z; st_size : Z }.

Definition S_ISDIR (mode : Z) : bool := Z.land mode S_IFMT =? S_IFDIR.

(** *** The operating system *)

(** What a system call hands back: a value, or an error number. *)
Inductive sysret (A : Type) : Type :=
| SysOk (a : A)
| SysErr (e : Z).
Arguments SysOk {A} a.
Arguments SysErr {A} e.

(** The system calls pal.c makes, over a kernel state [K].  A successful
    [open] yields a non-negative descriptor. *)
Class Posix (K : Type) : Type := {
  k_stat : list ascii -> K -> sysret stat_t * K;
  k_mkdir : list ascii -> Z -> K -> sysret unit * K;
  k_open : list ascii -> Z -> Z -> K -> sysret N * K;
  k_fsync : Z -> K -> sysret unit * K;
  k_close : Z -> K -> sysret unit * K;
  k_fstat : Z -> K -> sysret stat_t * K;
  k_mmap : Z -> Z -> Z -> Z -> Z -> Z -> K -> sysret Z * K
}.

(** The calls a process made, oldest first, each with the [int] (or
    pointer) the C library returned. *)
Inductive event : Type :=
| EvStat (path : list ascii) (r : Z)
| EvMkdir (path : list ascii) (mode : Z) (r : Z)
| EvOpen (path : list ascii) (flags mode : Z) (r : Z)
| EvFsync (fd : Z) (r : Z)
| EvClose (fd : Z) (r : Z)
| EvFstat (fd : Z) (r : Z)
| EvMmap (len prot flags fd : Z) (r : Z).

(** Modelled from the spec: errors.h ([push_error], [mark_error]) is not
    part of the sources.  The spec (section 6) has every operation attach
    an OS error code to a process-wide error context; an entry keeps the
    code, the format string and its arguments, and [mark_error] leaves a
    mark. *)
Inductive fmt_arg : Type :=
| ArgS (s : list ascii)
| ArgI (z : Z).

Inductive error_entry : Type :=
| Pushed (code : Z) (fmt : string) (args : list fmt_arg)
| Marked.

(** [file_handle_t* handle] points to a [struct pal_file_handle] that is
    followed, in the same allocation, by the bytes of the file name. *)
Record pal_file_handle : Type := { fd : Z }.

Record handle_mem : Type := {
  hdr : pal_file_handle;
  inline : list ascii                 (* (char* )handle + sizeof(file_handle_t) *)
}.

(** Bytes between [handle] and the inline name. *)
Definition name_offset : Z := Layout.sizeof Layout.file_handle_t.

(** pal.c, lines 20-22.  The result is the string at the returned
    pointer. *)
Definition get_file_name (handle : handle_mem) : list ascii :=
  c_str (inline handle).

(** pal.c, lines 24-35.  [None] is the null pointer; the sum is a
    [size_t]. *)
Definition get_file_handle_size (path name : option (list ascii)) : Z :=
  match path, name with
  | Some path, Some name =>
      let path_len := Z.of_nat (strlen path) in
      let name_len := Z.of_nat (strlen name) in
      if (path_len =? 0) || (name_len =? 0) then 0
      else u64 (Layout.sizeof Layout.file_handle_t + path_len + 1 + name_len + 1)
  | _, _ => 0
  end.

(** pal.c, lines 37-49.  Returns the handle's memory after the three
    writes; [filename] is then [inline] of the result. *)
Definition set_file_name (path name : list ascii) (handle : handle_mem)
  : option handle_mem :=
  let path_len := strlen path in
  let name_len := strlen name in
  let filename := inline handle in
  filename ← memcpy filename 0 (str_bytes path path_len);
  filename ← store filename path_len SLASH;
  filename ← memcpy filename (path_len + 1) (str_bytes name (name_len + 1));
  Some {| hdr := hdr handle; inline := filename |}.

(** *** Processes *)

(** The indeterminate contents of the uninitialised [struct stat]
    locals, each called [st], of the three functions that have one. *)
Record indeterminate : Type := {
  junk_create_file : stat_t;
  junk_ensure_file_path : stat_t;
  junk_get_file_size : stat_t
}.

Section Code.

Context {K : Type} `{!Posix K}.
Variable junk : indeterminate.

(** The kernel, [errno], the error context and the calls made. *)
Record proc : Type := {
  kernel : K;
  errno : Z;
  errors : list error_entry;
  trace : list event
}.

(** How a run ends: with a value and a state, in undefined behaviour,
    or out of the fuel given to a loop. *)
Inductive res (A : Type) : Type :=
| Ret (a : A) (p : proc)
| Undefined
| OutOfFuel.
Arguments Ret {A} a p.
Arguments Undefined {A}.
Arguments OutOfFuel {A}.

Definition M (A : Type) : Type := proc -> res A.

#[global] Instance M_ret : MRet M := fun A a p => Ret a p.

#[global] Instance M_bind : MBind M := fun A B f m p =>
  match m p with
  | Ret a p' => f a p'
  | Undefined => Undefined
  | OutOfFuel => OutOfFuel
  end.

(** A partial memory operation; [None] is undefined behaviour. *)
Definition defined {A} (o : option A) : M A :=
  fun p => match o with Some a => Ret a p | None => Undefined end.

Definition undefined {A} : M A := fun _ => Undefined.
Definition out_of_fuel {A} : M A := fun _ => OutOfFuel.

Definition get_errno : M Z := fun p => Ret (errno p) p.

Definition push_error (code : Z) (fmt : string) (args : list fmt_arg)
  : M unit :=
  fun p =>
    Ret tt {| kernel := kernel p; errno := errno p;
              errors := errors p ++ [Pushed code fmt args];
              trace := trace p |}.

Definition mark_error : M unit :=
  fun p =>
    Ret tt {| kernel := kernel p; errno := errno p;
              errors := errors p ++ [Marked];
              trace := trace p |}.

(** A call into the kernel through the C library: an error number
    goes to [errno] and the caller sees [failure] ([-1], or [MAP_FAILED]
    from [mmap]); [errno] is left alone otherwise.  The call is logged
    with the value the caller sees. *)
Definition sys {A} (call : K -> sysret A * K) (val : A -> Z) (failure : Z)
    (ev : Z -> event) : M (sysret A) :=
  fun p =>
    match call (kernel p) with
    | (SysOk a, k) =>
        Ret (SysOk a)
          {| kernel := k; errno := errno p; errors := errors p;
             trace := trace p ++ [ev (val a)] |}
    | (SysErr e, k) =>
        Ret (SysErr e)
          {| kernel := k; errno := e; errors := errors p;
             trace := trace p ++ [ev failure] |}
    end.

(** [stat(path, &st)]: the [int] result and the contents of [st]. *)
Definition posix_stat (path : list ascii) (st : stat_t) : M (Z * stat_t) :=
  r ← sys (k_stat path) (fun _ => 0) (-1) (EvStat path);
  mret (match r with SysOk st' => (0, st') | SysErr _ => (-1, st) end).

Definition posix_mkdir (path : list ascii) (mode : Z) : M Z :=
  r ← sys (k_mkdir path mode) (fun _ => 0) (-1) (EvMkdir path mode);
  mret (match r with SysOk _ => 0 | SysErr _ => -1 end).

Definition posix_open (path : list ascii) (flags mode : Z) : M Z :=
  r ← sys (k_open path flags mode) Z.of_N (-1) (EvOpen path flags mode);
  mret (match r with SysOk n => Z.of_N n | SysErr _ => -1 end).

Definition posix_fsync (fd : Z) : M Z :=
  r ← sys (k_fsync fd) (fun _ => 0) (-1) (EvFsync fd);
  mret (match r with SysOk _ => 0 | SysErr _ => -1 end).

Definition posix_close (fd : Z) : M Z :=
  r ← sys (k_close fd) (fun _ => 0) (-1) (EvClose fd);
  mret (match r with SysOk _ => 0 | SysErr _ => -1 end).

(** [fstat(fd, &st)] *)
Definition posix_fstat (fd : Z) (st : stat_t) : M (Z * stat_t) :=
  r ← sys (k_fstat fd) (fun _ => 0) (-1) (EvFstat fd);
  mret (match r with SysOk st' => (0, st') | SysErr _ => (-1, st) end).

(** [mmap(addr, len, prot, flags, fd, off)]: the pointer returned. *)
Definition posix_mmap (addr len prot flags fd off : Z) : M Z :=
  r ← sys (k_mmap addr len prot flags fd off) id MAP_FAILED
        (EvMmap len prot flags fd);
  mret (match r with SysOk a => a | SysErr _ => MAP_FAILED end).

(** *** pal.c, lines 51-77 *)

(** [file] is the buffer the [char*] points into; it is handed back
    because the function writes to it. *)
Definition fsync_parent_directory (file : list ascii)
  : M (bool * list ascii) :=
  let last := strrchr file SLASH in
  '(fd, file) ←
    match last with
    | None =>
        fd ← posix_open (lit ".") O_RDONLY 0;
        mret (fd, file)
    | Some last =>
        file ← defined (store file last NUL);        (* *last = 0; *)
        fd ← posix_open (c_str file) O_RDONLY 0;
        file ← defined (store file last SLASH);      (* *last = '/'; *)
        mret (fd, file)
    end;
  if fd =? -1 then
    e ← get_errno;
    push_error e "Unable to open parent directory of: %s"
      [ArgS (c_str file)];;
    mret (false, file)
  else
    let res := true in
    r ← posix_fsync fd;
    res ←
      (if negb (r =? 0) then
         e ← get_errno;
         push_error e "Failed to fsync parent directory of: %s"
           [ArgS (c_str file)];;
         mret false
       else mret res);
    r ← posix_close fd;
    res ←
      (if negb (r =? 0) then
         e ← get_errno;
         push_error e
           "Failed to close (after fsync) parent directory of: %s"
           [ArgS (c_str file)];;
         mret false
       else mret res);
    mret (res, file).

(** *** pal.c, lines 79-120 *)

(** The [while( *cur)] loop; [cur] is an offset into [file].  The
    source names the buffer [path] in this loop and in two messages,
    with no such variable in scope: it is the parameter [file] (and
    line 92 lacks its semicolon).  Leaving the loop reaches the end of a
    function that returns [bool], without a [return]. *)
Fixpoint ensure_file_path_loop (fuel : nat) (file : list ascii)
    (cur : nat) (st : stat_t) : M (bool * list ascii) :=
  match fuel with
  | O => out_of_fuel
  | S fuel =>
      c ← defined (file !! cur);
      if decide (c = NUL) then undefined
      else
        match strchr (drop cur file) SLASH with
        | None => mret (true, file)       (* not more directories *)
        | Some off =>
            let next_sep := (cur + off)%nat in
            file ← defined (store file next_sep NUL);
            '(r, st) ← posix_stat (c_str file) st;
            if negb (r =? 0) then
              if negb (S_ISDIR (st_mode st)) then
                push_error ENOTDIR
                  "The path '%s' is a file, but expected a directory"
                  [ArgS (c_str file)];;
                file ← defined (store file next_sep SLASH);
                mret (false, file)
              else
                ensure_file_path_loop fuel file (next_sep + 1) st
            else
              r ← posix_mkdir (c_str file) S_IRWXU;
              e ← get_errno;
              if (r =? -1) && negb (e =? EEXIST) then
                push_error e "Unable to create directory: %s"
                  [ArgS (c_str file)];;
                file ← defined (store file next_sep SLASH);
                mret (false, file)
              else
                '(ok, file) ← fsync_parent_directory file;
                if negb ok then
                  mark_error;;
                  file ← defined (store file next_sep SLASH);
                  mret (false, file)
                else
                  ensure_file_path_loop fuel file (next_sep + 1) st
        end
  end.

Definition ensure_file_path (file : list ascii) : M (bool * list ascii) :=
  let st := junk_ensure_file_path junk in
  '(r, st) ← posix_stat (c_str file) st;
  if negb (r =? 0) then
    if S_ISDIR (st_mode st) then
      push_error EISDIR "The path '%s' is a directory, expected a file"
        [ArgS (c_str file)];;
      mret (false, file)
    else
      mret (true, file)                   (* file exists, so we are good *)
  else
    let cur := 0%nat in
    ensure_file_path_loop (S (length file)) file cur st.

(** *** pal.c, lines 122-156 *)

(** Lines 140-155, which both branches of [if(isNew)] lead to. *)
Definition create_file_open (isNew : bool) (handle : pal_file_handle)
    (filename : list ascii) : M (bool * handle_mem) :=
  fd ← posix_open (c_str filename)
         (Z.lor (Z.lor O_CLOEXEC O_CREAT) O_RDWR)
         (Z.lor S_IRUSR S_IWUSR);
  if fd =? -1 then
    e ← get_errno;
    push_error e "Unable to open file %s" [ArgS (c_str filename)];;
    mret (false, {| hdr := handle; inline := filename |})
  else
    '(ok, filename) ←
      (if isNew then fsync_parent_directory filename
       else mret (true, filename));
    if negb ok then
      push_error EIO
        "Unable to fsync parent directory after creating new file: %s"
        [ArgS (c_str filename)];;
      r ← posix_close fd;
      (if r =? 0 then                        (* if(!close(fd)) *)
         e ← get_errno;
         push_error e "Unable to close file (%i) %s"
           [ArgI fd; ArgS (c_str filename)]
       else mret tt);;
      mret (false, {| hdr := handle; inline := filename |})
    else
      (* handle->fd = fd; *)
      mret (true, {| hdr := {| fd := fd |}; inline := filename |}).

Definition create_file (path name : list ascii) (handle : handle_mem)
  : M (bool * handle_mem) :=
  handle ← defined (set_file_name path name handle);
  let filename := inline handle in
  let st := junk_create_file junk in
  '(r, st) ← posix_stat (c_str filename) st;
  let isNew := (r =? 0) in                (* !stat(filename, &st) *)
  if isNew then
    '(ok, filename) ← ensure_file_path filename;
    if negb ok then
      mark_error;;
      mret (false, {| hdr := hdr handle; inline := filename |})
    else create_file_open isNew (hdr handle) filename
  else
    if S_ISDIR (st_mode st) then
      push_error EISDIR "The path '%s' is a directory, expected a file"
        [ArgS (c_str path)];;
      mret (false, handle)
    else create_file_open isNew (hdr handle) filename.

(** *** pal.c, lines 158-167 *)

(** [size] is the value [*size] holds on entry; the result carries
    the value it holds on return. *)
Definition get_file_size (handle : handle_mem) (size : Z) : M (bool * Z) :=
  let st := junk_get_file_size junk in
  '(res, st) ← posix_fstat (fd (hdr handle)) st;
  if negb (res =? -1) then
    mret (true, u64 (st_size st))         (* (uint64_t)st.st_size *)
  else
    e ← get_errno;
    push_error e "Unable to stat(%s)" [ArgS (get_file_name handle)];;
    mret (false, size).

(** *** pal.c, lines 169-178 *)

(** [address] is the value [*address] holds on entry. *)
Definition map_file (handle : handle_mem) (size : Z) (address : Z)
  : M (bool * Z) :=
  addr ← posix_mmap 0 size (Z.lor PROT_READ PROT_WRITE) MAP_SHARED
           (fd (hdr handle)) 0;
  if addr =? MAP_FAILED then
    e ← get_errno;
    push_error e "Unable to map file %s with size %lu"
      [ArgS (get_file_name handle); ArgI size];;
    mret (false, 0)
  else
    mret (true, addr).

(** *** pal.c, lines 188-198 *)

(** [None] is the null pointer. *)
Definition close_file (handle : option handle_mem) : M bool :=
  match handle with
  | None => mret true
  | Some handle =>
      r ← posix_close (fd (hdr handle));
      if r =? -1 then
        e ← get_errno;
        push_error e "Failed to close file %s (%i)"
          [ArgS (get_file_name handle); ArgI (fd (hdr handle))];;
        mret false
      else mret true
  end.

End Code.

Arguments proc K : clear implicits.
Arguments res K A : clear implicits.
Arguments M K A : clear implicits.
Arguments Ret {K A} a p.
Arguments Undefined {K A}.
Arguments OutOfFuel {K A}.

(** *** Memory and space *)

(** The two calls of pal.c that [Posix] leaves out. *)
Class PosixMem (K : Type) : Type := {
  k_munmap : Z -> Z -> K -> sysret unit * K;
  k_fallocate : Z -> Z -> Z -> Z -> K -> sysret unit * K
}.

(** The value of [(int64_t)z] for a [uint64_t] [z]. *)
Definition int64 (z : Z) : Z := (z + 2 ^ 63) mod 2 ^ 64 - 2 ^ 63.

Section MoreCode.

Context {K : Type} `{!PosixMem K}.

(** A call that is not logged in the trace. *)
Definition sys_quiet {A} (call : K -> sysret A * K) : M K (sysret A) :=
  fun p =>
    match call (kernel p) with
    | (SysOk a, k) =>
        Ret (SysOk a)
          {| kernel := k; errno := errno p; errors := errors p;
             trace := trace p |}
    | (SysErr e, k) =>
        Ret (SysErr e)
          {| kernel := k; errno := e; errors := errors p;
             trace := trace p |}
    end.

Definition posix_munmap (addr len : Z) : M K Z :=
  r ← sys_quiet (k_munmap addr len);
  mret (match r with SysOk _ => 0 | SysErr _ => -1 end).

Definition posix_fallocate (fd mode offset len : Z) : M K Z :=
  r ← sys_quiet (k_fallocate fd mode offset len);
  mret (match r with SysOk _ => 0 | SysErr _ => -1 end).

(** *** pal.c, lines 180-186 *)

Definition unmap_file (address size : Z) : M K bool :=
  r ← posix_munmap address size;
  if r =? -1 then
    push_error EINVAL "Unable to unmap!" [];;
    mret false
  else mret true.

(** *** pal.c, lines 200-207 *)

Definition ensure_file_minimum_size (handle : handle_mem) (minimum_size : Z)
  : M K bool :=
  res ← posix_fallocate (fd (hdr handle)) 0 0 (int64 minimum_size);
  if negb (res =? -1) then mret true
  else
    e ← get_errno;
    push_error e "Unable to extend file to size %s to %lu"
      [ArgS (get_file_name handle); ArgI minimum_size];;
    mret false.

End MoreCode.

End Pal.

(** ** A reference operating system *)

(** A file system without links: a tree of directories and regular
    files, the working directory being the root.  A call fails without
    effect when the fault plan says so, and otherwise does what
    POSIX describes. *)
Module RefFS.
Import Pal.

Inductive node : Type :=
| File (size : Z)
| Dir.

(** A place in the tree: the names from the root down to it. *)
Abbreviation place := (list (list ascii)).

Record state : Type := {
  fs : gmap place node;             (* every node but the root *)
  fds : gmap N place;               (* the open descriptors *)
  next_fd : N;
  faults : list (option Z)          (* for the calls to come *)
}.

Definition node_at (fs : gmap place node) (p : place) : option node :=
  match p with
  | [] => Some Dir
  | _ => fs !! p
  end.

(** The pieces of a path between its slashes. *)
Fixpoint split_slash (s : list ascii) : list (list ascii) :=
  match s with
  | [] => [[]]
  | c :: r =>
      if decide (c = SLASH) then [] :: split_slash r
      else match split_slash r with
           | p :: ps => (c :: p) :: ps
           | [] => [[c]]
           end
  end.

Inductive found : Type :=
| Found (p : place) (n : node)
| Missing (parent : place) (name : list ascii)
| Refused (e : Z).

(** Path resolution from the node [n] at [cur]. *)
Fixpoint walk (fs : gmap place node) (cur : place) (n : node)
    (pieces : list (list ascii)) : found :=
  match pieces with
  | [] => Found cur n
  | x :: ps =>
      match n with
      | File _ => Refused ENOTDIR
      | Dir =>
          if decide (x = [] \/ x = lit ".") then walk fs cur Dir ps
          else if decide (x = lit "..") then walk fs (removelast cur) Dir ps
          else
            match fs !! (cur ++ [x]) with
            | Some n' => walk fs (cur ++ [x]) n' ps
            | None =>
                match ps with
                | [] => Missing cur x
                | _ => Refused ENOENT
                end
            end
      end
  end.

Definition resolve (fs : gmap place node) (path : list ascii) : found :=
  match path with
  | [] => Refused ENOENT
  | _ => walk fs [] Dir (split_slash path)
  end.

Definition stat_of (n : node) : stat_t :=
  match n with
  | File size => {| st_mode := Z.lor S_IFREG 384; st_size := size |}
  | Dir => {| st_mode := Z.lor S_IFDIR 448; st_size := 4096 |}
  end.

(** Consult the fault plan, then run the call. *)
Definition faulty {A} (call : state -> sysret A * state) (k : state)
  : sysret A * state :=
  let k' := {| fs := fs k; fds := fds k; next_fd := next_fd k;
               faults := tail (faults k) |} in
  match faults k with
  | Some e :: _ => (SysErr e, k')
  | _ => call k'
  end.

Definition do_stat (path : list ascii) (k : state) : sysret stat_t * state :=
  match resolve (fs k) path with
  | Found _ n => (SysOk (stat_of n), k)
  | Missing _ _ => (SysErr ENOENT, k)
  | Refused e => (SysErr e, k)
  end.

Definition do_mkdir (path : list ascii) (mode : Z) (k : state)
  : sysret unit * state :=
  match resolve (fs k) path with
  | Found _ _ => (SysErr EEXIST, k)
  | Missing parent x =>
      (SysOk tt,
       {| fs := <[parent ++ [x] := Dir]> (fs k); fds := fds k;
          next_fd := next_fd k; faults := faults k |})
  | Refused e => (SysErr e, k)
  end.

Definition open_at (p : place) (fs' : gmap place node) (k : state)
  : sysret N * state :=
  (SysOk (next_fd k),
   {| fs := fs'; fds := <[next_fd k := p]> (fds k);
      next_fd := N.succ (next_fd k); faults := faults k |}).

Definition do_open (path : list ascii) (flags mode : Z) (k : state)
  : sysret N * state :=
  match resolve (fs k) path with
  | Found p Dir =>
      if Z.land flags 3 =? O_RDONLY then open_at p (fs k) k
      else (SysErr EISDIR, k)
  | Found p (File _) => open_at p (fs k) k
  | Missing parent x =>
      if Z.land flags O_CREAT =? 0 then (SysErr ENOENT, k)
      else open_at (parent ++ [x]) (<[parent ++ [x] := File 0]> (fs k)) k
  | Refused e => (SysErr e, k)
  end.

Definition descriptor (k : state) (fd : Z) : option place :=
  if fd <? 0 then None else fds k !! Z.to_N fd.

Definition do_fsync (fd : Z) (k : state) : sysret unit * state :=
  match descriptor k fd with
  | Some _ => (SysOk tt, k)
  | None => (SysErr EBADF, k)
  end.

Definition do_close (fd : Z) (k : state) : sysret unit * state :=
  match descriptor k fd with
  | Some _ =>
      (SysOk tt,
       {| fs := fs k; fds := delete (Z.to_N fd) (fds k);
          next_fd := next_fd k; faults := faults k |})
  | None => (SysErr EBADF, k)
  end.

Definition do_fstat (fd : Z) (k : state) : sysret stat_t * state :=
  match descriptor k fd ≫= node_at (fs k) with
  | Some n => (SysOk (stat_of n), k)
  | None => (SysErr EBADF, k)
  end.

(** A mapping of descriptor [fd] is placed at [(fd + 1) * 2^32]. *)
Definition do_mmap (addr len prot flags fd off : Z) (k : state)
  : sysret Z * state :=
  match descriptor k fd ≫= node_at (fs k) with
  | Some (File _) =>
      if len <=? 0 then (SysErr EINVAL, k)
      else (SysOk ((fd + 1) * 2 ^ 32), k)
  | Some Dir => (SysErr 19, k)                   (* ENODEV *)
  | None => (SysErr EBADF, k)
  end.

#[global] Instance posix : Posix state := {|
  k_stat path := faulty (do_stat path);
  k_mkdir path mode := faulty (do_mkdir path mode);
  k_open path flags mode := faulty (do_open path flags mode);
  k_fsync fd := faulty (do_fsync fd);
  k_close fd := faulty (do_close fd);
  k_fstat fd := faulty (do_fstat fd);
  k_mmap addr len prot flags fd off :=
    faulty (do_mmap addr len prot flags fd off)
|}.

(** The tree of a kernel only grows. *)
Definition grows (k k' : state) : Prop := fs k ⊆ fs k'.

(** A process that has made no call yet, with descriptors 0, 1 and 2
    taken. *)
Definition start (fs : gmap place node) (faults : list (option Z))
  : proc state :=
  {| kernel := {| fs := fs; fds := ∅; next_fd := 3; faults := faults |};
     errno := 0; errors := []; trace := [] |}.

End RefFS.

(** ** A scripted operating system *)

(** A kernel that answers its calls from a list, in order, whatever
    their arguments: the operating system as the C library shows it to
    one process, while other processes may change the file system
    between two of its calls. *)
Module Script.
Import Pal.

Inductive answer : Type :=
| Done                              (* a call that yields no value succeeded *)
| Stat (st : stat_t)
| Descriptor (n : N)
| Address (a : Z)
| Error (e : Z).

Definition state : Type := list answer.

Definition ENOSYS : Z := 38.

(** The next answer, read as the result of the call; an answer of
    another kind, and the end of the list, are [ENOSYS]. *)
Definition next {A} (read : answer -> option A) (k : state)
  : sysret A * state :=
  match k with
  | [] => (SysErr ENOSYS, [])
  | Error e :: rest => (SysErr e, rest)
  | a :: rest =>
      (match read a with Some v => SysOk v | None => SysErr ENOSYS end, rest)
  end.

Definition done (a : answer) : option unit :=
  match a with Done => Some tt | _ => None end.

Definition stat (a : answer) : option stat_t :=
  match a with Stat st => Some st | _ => None end.

Definition descriptor (a : answer) : option N :=
  match a with Descriptor n => Some n | _ => None end.

Definition address (a : answer) : option Z :=
  match a with Address z => Some z | _ => None end.

#[global] Instance posix : Posix state := {|
  k_stat _ := next stat;
  k_mkdir _ _ := next done;
  k_open _ _ _ := next descriptor;
  k_fsync _ := next done;
  k_close _ := next done;
  k_fstat _ := next stat;
  k_mmap _ _ _ _ _ _ := next address
|}.

#[global] Instance posix_mem : PosixMem state := {|
  k_munmap _ _ := next done;
  k_fallocate _ _ _ _ := next done
|}.

(** A process that has made no call yet. *)
Definition start (answers : list answer) : proc state :=
  {| kernel := answers; errno := 0; errors := []; trace := [] |}.

End Script.

Import Pal.

(** ** Vocabulary of the statements *)

(** The values of a [uint64_t]. *)
Definition is_u64 (w : Z) : Prop := 0 <= w < 2 ^ 64.

(** The directory that holds [file], as [fsync_parent_directory] names
    it: the bytes before the last slash of the name, or [.] when it has
    none. *)
Definition parent_name (file : list ascii) : list ascii :=
  match strrchr file SLASH with
  | Some last => take last file
  | None => lit "."
  end.

(** What the C library hands back for a call that returns an [int]:
    0 on success and -1 on failure. *)
Definition int_result {A} (r : sysret A) : Z :=
  match r with SysOk _ => 0 | SysErr _ => -1 end.

Definition succeeded {A} (r : sysret A) : bool :=
  match r with SysOk _ => true | SysErr _ => false end.

(** The error pushed for a call: none when it succeeded, and one with
    the error number of the call when it failed. *)
Definition reported {A} (r : sysret A) (fmt : string) (args : list fmt_arg)
  : list error_entry :=
  match r with SysOk _ => [] | SysErr e => [Pushed e fmt args] end.

Section Vocabulary.
Context {K : Type} `{!Posix K}.

(** Partial correctness: if [m] returns from [p], the value and the state
    it returns satisfy [Q]. *)
Definition post {A} (m : M K A) (p : proc K) (Q : A -> proc K -> Prop) : Prop :=
  forall a p', m p = Ret a p' -> Q a p'.

(** Every run of [m] takes a state to one related to it by [R]. *)
Definition preserves {A} (R : proc K -> proc K -> Prop) (m : M K A) : Prop :=
  forall p, post m p (fun _ p' => R p p').

(** [m] never runs out of fuel. *)
Definition finishes {A} (m : M K A) : Prop := forall p, m p <> OutOfFuel.

(** The calls [fsync_parent_directory] and [ensure_file_path] make:
    [stat], [mkdir], [open] with [O_RDONLY], [fsync] and [close]. *)
Definition housekeeping (ev : event) : bool :=
  match ev with
  | EvStat _ _ | EvMkdir _ _ _ | EvFsync _ _ | EvClose _ _ => true
  | EvOpen _ flags _ _ => flags =? O_RDONLY
  | EvFstat _ _ | EvMmap _ _ _ _ _ => false
  end.

Definition is_mkdir (ev : event) : bool :=
  match ev with EvMkdir _ _ _ => true | _ => false end.

Definition is_fsync (ev : event) : bool :=
  match ev with EvFsync _ _ => true | _ => false end.

(** The flags and the mode of the [open] at line 140 of pal.c. *)
Definition create_flags : Z := Z.lor (Z.lor O_CLOEXEC O_CREAT) O_RDWR.
Definition create_mode : Z := Z.lor S_IRUSR S_IWUSR.

(** From [p] to [p'] the kernel moved along [KR], only housekeeping
    calls were made, and errors were only added. *)
Definition evolves (KR : K -> K -> Prop) (p p' : proc K) : Prop :=
  KR (kernel p) (kernel p') /\
  exists evs errs,
    trace p' = trace p ++ evs /\ errors p' = errors p ++ errs /\
    forallb housekeeping evs = true.

(** Every housekeeping call takes a kernel state to one related by
    [KR]. *)
Definition kernel_respects (KR : K -> K -> Prop) : Prop :=
  (forall path k, KR k (k_stat path k).2) /\
  (forall path mode k, KR k (k_mkdir path mode k).2) /\
  (forall path flags mode k, KR k (k_open path flags mode k).2) /\
  (forall fd k, KR k (k_fsync fd k).2) /\
  (forall fd k, KR k (k_close fd k).2).

(** From [p] to [p'] calls were only added, and every [mkdir] among
    them was of the path [c], with mode [S_IRWXU]. *)
Definition mkdirs_only_at (c : list ascii) (p p' : proc K) : Prop :=
  exists evs,
    trace p' = trace p ++ evs /\
    forall q mode r, EvMkdir q mode r ∈ evs -> q = c /\ mode = S_IRWXU.

End Vocabulary.

(** The inputs of the examples. *)
Module Examples.

Definition zero_stat : stat_t := {| st_mode := 0; st_size := 0 |}.

Definition junk : indeterminate :=
  {| junk_create_file := zero_stat;
     junk_ensure_file_path := zero_stat;
     junk_get_file_size := zero_stat |}.

(** A handle allocated with room for a 19 character name. *)
Definition fresh_handle : handle_mem :=
  {| hdr := {| fd := -1 |}; inline := replicate 20 NUL |}.

(** The handle of descriptor 3, named [db/data]. *)
Definition data_handle : handle_mem :=
  {| hdr := {| fd := 3 |}; inline := lit "db/data" ++ [NUL] |}.

(** A handle whose descriptor is not open. *)
Definition stale_handle : handle_mem :=
  {| hdr := {| fd := 7 |}; inline := lit "db/data" ++ [NUL] |}.

(** A directory [db], empty. *)
Definition empty_db : gmap RefFS.place RefFS.node :=
  {[ [lit "db"] := RefFS.Dir ]}.

(** A directory [db] with a file [data] of ten bytes. *)
Definition db_with_data : gmap RefFS.place RefFS.node :=
  <[ [lit "db"; lit "data"] := RefFS.File 10 ]> empty_db.

(** [create_file("db", "data", handle)] where [db] exists and [db/data]
    does not. *)
Definition create_absent : res RefFS.state (bool * handle_mem) :=
  create_file junk (lit "db") (lit "data") fresh_handle
    (RefFS.start empty_db []).

(** [create_file("db", "data", handle)] where [db/data] exists, the
    [stat] of [ensure_file_path] fails with [ENOMEM] (12) and the
    [fsync] of the parent directory after the [open] fails with [EIO]. *)
Definition sync_fails_plan : list (option Z) :=
  [None; Some 12; None; None; Some EIO; None; None].

Definition create_sync_fails : res RefFS.state (bool * handle_mem) :=
  create_file junk (lit "db") (lit "data") fresh_handle
    (RefFS.start db_with_data sync_fails_plan).

(** The same, and the [close] of the file's descriptor fails too. *)
Definition close_fails_plan : list (option Z) :=
  [None; Some 12; None; None; Some EIO; None; Some EBADF].

Definition create_close_fails : res RefFS.state (bool * handle_mem) :=
  create_file junk (lit "db") (lit "data") fresh_handle
    (RefFS.start db_with_data close_fails_plan).

(** [create_file("db", "data", handle)] where not even [db] exists. *)
Definition create_orphan : res RefFS.state (bool * handle_mem) :=
  create_file junk (lit "db") (lit "data") fresh_handle (RefFS.start ∅ []).

(** [create_file("db", "data", handle)] where [db/data] exists and no
    call fails by the plan. *)
Definition create_present : res RefFS.state (bool * handle_mem) :=
  create_file junk (lit "db") (lit "data") fresh_handle
    (RefFS.start db_with_data []).

(** A process that holds descriptor 3, open on [db/data]. *)
Definition with_data_open : proc RefFS.state :=
  {| kernel :=
       {| RefFS.fs := db_with_data;
          RefFS.fds := {[ 3%N := [lit "db"; lit "data"] ]};
          RefFS.next_fd := 4;
          RefFS.faults := [] |};
     errno := 0; errors := []; trace := [] |}.

(** [fsync_parent_directory("db/data")] where [db] exists. *)
Definition sync_parent : res RefFS.state (bool * list ascii) :=
  fsync_parent_directory (lit "db/data" ++ [NUL])
    (RefFS.start db_with_data []).

(** [ensure_file_path("db/data")] where [db/data] exists. *)
Definition ensure_present : res RefFS.state (bool * list ascii) :=
  ensure_file_path junk (lit "db/data" ++ [NUL])
    (RefFS.start db_with_data []).

(** Uninitialised memory in which the [st] of [create_file] looks like
    the [struct stat] of a directory. *)
Definition dir_junk : indeterminate :=
  {| junk_create_file := {| st_mode := S_IFDIR; st_size := 0 |};
     junk_ensure_file_path := zero_stat;
     junk_get_file_size := zero_stat |}.

(** [create_file("db", "data", handle)] where [db/data] exists and
    the [open] of line 140, which is of [db] by then, is answered with
    descriptor 4 (the directory [db] has been replaced by a file in the
    meantime).  The answers are those of: [stat] of [db/data], twice;
    [stat] and [mkdir] of [db]; [open], [fsync] and [close] of [.]; the
    [open] of line 140; [open], [fsync] and [close] of [.]. *)
Definition cut_name_answers : list Script.answer :=
  [Script.Stat (RefFS.stat_of (RefFS.File 10));
   Script.Stat (RefFS.stat_of (RefFS.File 10));
   Script.Stat (RefFS.stat_of RefFS.Dir);
   Script.Error EEXIST;
   Script.Descriptor 3; Script.Done; Script.Done;
   Script.Descriptor 4;
   Script.Descriptor 3; Script.Done; Script.Done].

Definition create_cut_name : res Script.state (bool * handle_mem) :=
  create_file junk (lit "db") (lit "data") fresh_handle
    (Script.start cut_name_answers).

(** A process whose next call is refused with [EINVAL]. *)
Definition refused : proc Script.state := Script.start [Script.Error EINVAL].

End Examples.

(** * Properties *)

(** ** Machine integers and bits *)

Lemma u64_small z : 0 <= z < 2 ^ 64 -> u64 z = z.
Proof. intros Hz. unfold u64. by rewrite Z.mod_small. Qed.

Lemma land_pow2_eqb w k :
  0 <= k -> (Z.land w (2 ^ k) =? 0) = negb (Z.testbit w k).
Proof.
  intros Hk. destruct (Z.testbit w k) eqn:Hw; simpl.
  - assert (Z.land w (2 ^ k) = 2 ^ k) as ->.
    { apply Z.bits_inj'. intros n Hn.
      rewrite Z.land_spec, Z.pow2_bits_eqb by done.
      destruct (Z.eqb_spec k n) as [->|]; [by rewrite Hw | apply andb_false_r]. }
    apply Z.eqb_neq. pose proof (Z.pow_pos_nonneg 2 k). lia.
  - assert (Z.land w (2 ^ k) = 0) as ->; [|done].
    apply Z.bits_inj'. intros n Hn.
    rewrite Z.land_spec, Z.pow2_bits_eqb, Z.bits_0 by done.
    destruct (Z.eqb_spec k n) as [->|]; [by rewrite Hw | apply andb_false_r].
Qed.

Section BitmapFacts.
Import Bitmap.

Lemma bit_mask_pow2 pos : bit_mask pos = 2 ^ (pos mod 64).
Proof.
  unfold bit_mask. pose proof (Z.mod_pos_bound pos 64 eq_refl) as Hm.
  rewrite Z.shiftl_1_l. apply u64_small. split.
  - apply Z.pow_nonneg. lia.
  - apply Z.pow_lt_mono_r; lia.
Qed.

(** [is_bit_set] reads bit [pos mod 64] of word [pos / 64]. *)
Lemma is_bit_set_testbit buffer pos w :
  buffer !! word_index pos = Some w ->
  is_bit_set buffer pos = Some (Z.testbit w (pos mod 64)).
Proof.
  intros Hw. unfold is_bit_set. rewrite Hw. simpl.
  rewrite bit_mask_pow2, land_pow2_eqb, negb_involutive; [done|].
  apply Z.mod_pos_bound. lia.
Qed.

Lemma word_index_inj p q :
  0 <= p -> 0 <= q -> word_index p = word_index q -> p mod 64 = q mod 64 -> p = q.
Proof.
  unfold word_index. intros Hp Hq Hi Hm.
  assert (p / 64 = q / 64) by (apply Z2Nat.inj; [apply Z.div_pos; lia ..| done]).
  rewrite (Z.div_mod p 64), (Z.div_mod q 64) by lia. congruence.
Qed.

(** C4: on a buffer that holds position [p], [set_bit] makes
    [is_bit_set] answer true at [p]; it keeps the length, leaves every
    word but word [p / 64] as it was and, in that word, every bit but bit
    [p mod 64], so [is_bit_set] answers as before at every other position;
    and setting the bit a second time changes nothing. *)
Theorem set_bit_spec (buffer : list Z) (p : Z) :
  in_bounds buffer p ->
  exists buffer',
    set_bit buffer p = Some buffer' /\
    is_bit_set buffer' p = Some true /\
    length buffer' = length buffer /\
    (forall i, i <> word_index p -> buffer' !! i = buffer !! i) /\
    (forall w w' k,
        buffer !! word_index p = Some w ->
        buffer' !! word_index p = Some w' ->
        0 <= k -> k <> p mod 64 -> Z.testbit w' k = Z.testbit w k) /\
    (forall q, 0 <= q -> q <> p -> is_bit_set buffer' q = is_bit_set buffer q) /\
    set_bit buffer' p = Some buffer'.
Proof.
  intros [Hp Hlen].
  destruct (lookup_lt_is_Some_2 buffer _ Hlen) as [w Hw].
  pose proof (Z.mod_pos_bound p 64 eq_refl) as Hm.
  set (w1 := Z.lor w (bit_mask p)).
  assert (Hw1 : <[word_index p := w1]> buffer !! word_index p = Some w1)
    by by apply list_lookup_insert_eq.
  exists (<[word_index p := w1]> buffer). repeat split.
  - unfold set_bit. by rewrite Hw.
  - rewrite (is_bit_set_testbit _ _ _ Hw1). f_equal. unfold w1.
    rewrite bit_mask_pow2, Z.lor_spec, Z.pow2_bits_true by lia.
    apply orb_true_r.
  - apply length_insert.
  - intros i Hi. by apply list_lookup_insert_ne.
  - intros w0 w' k Hw0 Hw' Hk Hne.
    assert (w0 = w) as -> by congruence.
    assert (w' = w1) as -> by congruence.
    unfold w1. rewrite bit_mask_pow2, Z.lor_spec, Z.pow2_bits_eqb by lia.
    destruct (Z.eqb_spec (p mod 64) k); [lia | apply orb_false_r].
  - intros q Hq Hne. destruct (decide (word_index q = word_index p)) as [Heq|Hi].
    + unfold is_bit_set. rewrite Heq, Hw1, Hw. simpl.
      pose proof (Z.mod_pos_bound q 64 eq_refl).
      rewrite !(bit_mask_pow2 q), !land_pow2_eqb by lia. do 2 f_equal.
      unfold w1. rewrite bit_mask_pow2, Z.lor_spec, Z.pow2_bits_eqb by lia.
      destruct (Z.eqb_spec (p mod 64) (q mod 64)) as [Hmod|];
        [|by rewrite orb_false_r].
      exfalso. apply Hne. by apply word_index_inj.
    + unfold is_bit_set. by rewrite list_lookup_insert_ne.
  - unfold set_bit. rewrite Hw1. simpl. rewrite list_insert_insert_eq.
    do 2 f_equal. unfold w1. rewrite <- Z.lor_assoc. by rewrite Z.lor_diag.
Qed.

Lemma set_bit_spec_witness :
  in_bounds [0; 5] 66 /\
  exists buffer',
    set_bit [0; 5] 66 = Some buffer' /\
    is_bit_set buffer' 66 = Some true /\
    length buffer' = length [0; 5] /\
    (forall i, i <> word_index 66 -> buffer' !! i = [0; 5] !! i) /\
    (forall w w' k,
        [0; 5] !! word_index 66 = Some w ->
        buffer' !! word_index 66 = Some w' ->
        0 <= k -> k <> 66 mod 64 -> Z.testbit w' k = Z.testbit w k) /\
    (forall q, 0 <= q -> q <> 66 -> is_bit_set buffer' q = is_bit_set [0; 5] q) /\
    set_bit buffer' 66 = Some buffer'.
Proof.
  assert (H : in_bounds [0; 5] 66) by (split; [lia | vm_compute; lia]).
  split; [exact H | exact (set_bit_spec [0; 5] 66 H)].
Defined.

(** C3, what the code does: on a buffer that holds position [p],
    [clear_bit] flips the bit, so afterwards [is_bit_set] answers the
    opposite of what it answered before: false when the bit was set, and
    true when it was clear. *)
Theorem clear_bit_flips (buffer : list Z) (p : Z) :
  in_bounds buffer p ->
  exists buffer',
    clear_bit buffer p = Some buffer' /\
    is_bit_set buffer' p = negb <$> is_bit_set buffer p.
Proof.
  intros [Hp Hlen].
  destruct (lookup_lt_is_Some_2 buffer _ Hlen) as [w Hw].
  pose proof (Z.mod_pos_bound p 64 eq_refl) as Hm.
  eexists. split; [unfold clear_bit; by rewrite Hw|].
  rewrite (is_bit_set_testbit buffer p w Hw).
  erewrite is_bit_set_testbit by by apply list_lookup_insert_eq.
  simpl. f_equal.
  rewrite bit_mask_pow2, Z.lxor_spec, Z.pow2_bits_true by lia.
  by destruct (Z.testbit w (p mod 64)).
Qed.

(** The bit of position 0 is clear in the buffer [[0]]; after
    [clear_bit] it is set. *)
Lemma clear_bit_flips_witness :
  in_bounds [0] 0 /\
  is_bit_set [0] 0 = Some false /\
  exists buffer',
    clear_bit [0] 0 = Some buffer' /\ is_bit_set buffer' 0 = Some true.
Proof.
  assert (H : in_bounds [0] 0) by (split; [lia | vm_compute; lia]).
  split; [exact H|]. split; [reflexivity|].
  destruct (clear_bit_flips [0] 0 H) as (buffer' & Hc & Hs).
  exists buffer'. split; [exact Hc | exact Hs].
Defined.

End BitmapFacts.

(** ** Record layout *)

(** C5: [file_header_t] holds the five bytes of the magic ["GVRN!"], a
    one-byte version, a one-byte page size exponent and three 8-byte
    counters (after a leading one-byte [page_flags]); it is 32 bytes long
    and sits at offset 32 of the 64-byte [page_metadata_t], so it ends
    within it. *)
Theorem file_header_layout :
  map (fun f => (f.1, (f.2.1, sizeof f.2.2)))
      (field_offsets (fields_of file_header_t) 0)
  = [("page_flags", (0, 1)); ("version", (1, 1));
     ("page_size_power_of_two", (2, 1));
     ("magic", (3, Z.of_nat (String.length FILE_HEADER_MAGIC)));
     ("number_of_pages", (8, 8)); ("last_tx_id", (16, 8));
     ("free_space_bitmap_start", (24, 8))] /\
  FILE_HEADER_MAGIC = "GVRN!"%string /\
  sizeof file_header_t = 32 /\
  offsetof page_metadata_t "" = Some 32 /\
  offsetof page_metadata_semantic "file_header" = Some 0 /\
  32 + sizeof file_header_t <= sizeof page_metadata_t /\
  sizeof page_metadata_t = 64.
Proof. repeat split; vm_compute; congruence. Qed.

(** C6: [page_metadata_t] is 64 bytes: [page_crypto_metadata_t] at
    offset 0, 32 bytes, the union of nonce and tag (12 + 16 bytes) and of
    the 32-byte page hash; then at offset 32 the union, 32 bytes, of
    [page_metadata_common_t] and [file_header_t], 32 bytes each. *)
Theorem page_metadata_layout :
  sizeof page_metadata_t = 64 /\
  map (fun f => (f.1, (f.2.1, sizeof f.2.2)))
      (field_offsets (fields_of page_metadata_t) 0)
  = [("cyrpto", (0, 32)); ("", (32, 32))] /\
  sizeof page_crypto_metadata_t = 32 /\
  map (fun f => (f.1, sizeof f.2))
      (fields_of (Tunion
         [("aes_gcm",
           Tstruct [("nonce", Tarray Tuint8 crypto_aead_aes256gcm_NPUBBYTES);
                    ("mac", Tarray Tuint8 crypto_aead_aes256gcm_ABYTES)]);
          ("page_hash", Tarray Tuint8 crypto_generichash_BYTES)]))
  = [("aes_gcm", 12 + 16); ("page_hash", 32)] /\
  fields_of page_crypto_metadata_t
  = [("", Tunion
         [("aes_gcm",
           Tstruct [("nonce", Tarray Tuint8 crypto_aead_aes256gcm_NPUBBYTES);
                    ("mac", Tarray Tuint8 crypto_aead_aes256gcm_ABYTES)]);
          ("page_hash", Tarray Tuint8 crypto_generichash_BYTES)])] /\
  map (fun f => (f.1, sizeof f.2)) (fields_of page_metadata_semantic)
  = [("common", 32); ("file_header", 32)].
Proof. repeat split; vm_compute; congruence. Qed.

(** ** Runs of the process monad *)

Section PalFacts.
Context {K : Type} `{!Posix K}.
Implicit Types (p : proc K).

Lemma bind_Ret_inv {A B} (m : M K A) (f : A -> M K B) p b p2 :
  (m ≫= f) p = Ret b p2 ->
  exists a p1, m p = Ret a p1 /\ f a p1 = Ret b p2.
Proof. unfold mbind, M_bind. destruct (m p); naive_solver. Qed.

Lemma sys_Ret_inv {A} (call : K -> sysret A * K) val failure ev p r p' :
  sys call val failure ev p = Ret r p' ->
  call (kernel p) = (r, kernel p') /\
  errors p' = errors p /\
  trace p' =
    trace p ++ [ev (match r with SysOk a => val a | SysErr _ => failure end)] /\
  errno p' = match r with SysOk _ => errno p | SysErr e => e end.
Proof.
  unfold sys. destruct (call (kernel p)) as [[a|e] k]; intros [= <- <-]; done.
Qed.

Lemma sys_total {A} (call : K -> sysret A * K) val failure ev p :
  exists r p', sys call val failure ev p = Ret r p'.
Proof. unfold sys. destruct (call (kernel p)) as [[a|e] k]; eauto. Qed.

(** C7: when [fstat] succeeds, [get_file_size] returns true with the
    size [fstat] reported in [*size] (as a [uint64_t]: the size itself
    when it is in range) and pushes no error; when [fstat] fails with
    error number [e], it returns false, leaves [*size] as it was and
    pushes one error, whose code is [e]. *)
Theorem get_file_size_spec (junk : indeterminate) (handle : handle_mem)
    (size : Z) p :
  (forall st k,
      k_fstat (fd (hdr handle)) (kernel p) = (SysOk st, k) ->
      exists p',
        get_file_size junk handle size p = Ret (true, u64 (st_size st)) p' /\
        errors p' = errors p /\
        (0 <= st_size st < 2 ^ 64 -> u64 (st_size st) = st_size st)) /\
  (forall e k,
      k_fstat (fd (hdr handle)) (kernel p) = (SysErr e, k) ->
      exists p',
        get_file_size junk handle size p = Ret (false, size) p' /\
        errors p' =
          errors p ++
          [Pushed e "Unable to stat(%s)" [ArgS (get_file_name handle)]]).
Proof.
  split; intros x k Hk;
    unfold get_file_size, posix_fstat, sys, mbind, M_bind, mret, M_ret;
    rewrite Hk; simpl; eexists; repeat split; eauto using u64_small.
Qed.

(** C8: [close_file(NULL)] returns true and leaves the process as it
    was: no call is made and no error is pushed. *)
Theorem close_file_null p : close_file None p = Ret true p.
Proof. reflexivity. Qed.

(** C9: [map_file] makes one call, [mmap], and its result follows what
    that call yields.  When [mmap] yields an address other than
    [MAP_FAILED], [map_file] returns true with that address in
    [*address] and pushes nothing.  When [mmap] fails with error number
    [e], [map_file] returns false with [*address] set to 0, whatever it
    held on entry, and pushes one error, whose code is [e].  (Were
    [MAP_FAILED] ever handed back without an error number, the result
    would be false and [*address] 0 as well.) *)
Theorem map_file_spec (handle : handle_mem) (size address : Z) p :
  (forall a k,
      k_mmap 0 size (Z.lor PROT_READ PROT_WRITE) MAP_SHARED
        (fd (hdr handle)) 0 (kernel p) = (SysOk a, k) ->
      a <> MAP_FAILED ->
      exists p',
        map_file handle size address p = Ret (true, a) p' /\
        kernel p' = k /\
        errors p' = errors p /\
        trace p' =
          trace p ++
          [EvMmap size (Z.lor PROT_READ PROT_WRITE) MAP_SHARED
             (fd (hdr handle)) a]) /\
  (forall e k,
      k_mmap 0 size (Z.lor PROT_READ PROT_WRITE) MAP_SHARED
        (fd (hdr handle)) 0 (kernel p) = (SysErr e, k) ->
      exists p',
        map_file handle size address p = Ret (false, 0) p' /\
        kernel p' = k /\
        errors p' =
          errors p ++
          [Pushed e "Unable to map file %s with size %lu"
             [ArgS (get_file_name handle); ArgI size]] /\
        trace p' =
          trace p ++
          [EvMmap size (Z.lor PROT_READ PROT_WRITE) MAP_SHARED
             (fd (hdr handle)) MAP_FAILED]) /\
  (forall k,
      k_mmap 0 size (Z.lor PROT_READ PROT_WRITE) MAP_SHARED
        (fd (hdr handle)) 0 (kernel p) = (SysOk MAP_FAILED, k) ->
      exists p',
        map_file handle size address p = Ret (false, 0) p' /\
        kernel p' = k /\
        errors p' =
          errors p ++
          [Pushed (errno p) "Unable to map file %s with size %lu"
             [ArgS (get_file_name handle); ArgI size]]).
Proof.
  split; [|split].
  - intros a k Hk Ha.
    unfold map_file, posix_mmap, sys, mbind, M_bind, mret, M_ret.
    rewrite Hk. simpl.
    destruct (Z.eqb_spec a MAP_FAILED) as [|_]; [done|].
    by eexists.
  - intros e k Hk.
    unfold map_file, posix_mmap, sys, mbind, M_bind, mret, M_ret.
    rewrite Hk. simpl. by eexists.
  - intros k Hk.
    unfold map_file, posix_mmap, sys, mbind, M_bind, mret, M_ret.
    rewrite Hk. simpl. by eexists.
Qed.

End PalFacts.

(** ** C strings *)

Lemma c_str_nul_free s : NUL ∉ c_str s.
Proof.
  induction s as [|c s IH]; simpl; [apply not_elem_of_nil|].
  destruct (decide (c = NUL)); [apply not_elem_of_nil|].
  apply not_elem_of_cons. by split.
Qed.

Lemma c_str_app a b : NUL ∉ a -> c_str (a ++ b) = a ++ c_str b.
Proof.
  induction a as [|c a IH]; simpl; [done|]. intros Hn.
  apply not_elem_of_cons in Hn as [Hc Hn].
  rewrite decide_False by done. f_equal. by apply IH.
Qed.

Lemma c_str_nul a b : NUL ∉ a -> c_str (a ++ NUL :: b) = a.
Proof.
  intros Hn. rewrite c_str_app by done. simpl. apply app_nil_r.
Qed.

Lemma str_bytes_strlen s : str_bytes s (strlen s) = c_str s.
Proof. unfold str_bytes, strlen. by rewrite take_app_length. Qed.

Lemma str_bytes_strlen_1 s : str_bytes s (strlen s + 1) = c_str s ++ [NUL].
Proof.
  unfold str_bytes, strlen. apply take_ge. rewrite length_app. simpl. lia.
Qed.

(** [strchr] finds the first [ch]: nothing before it is [ch] or NUL. *)
Lemma strchr_Some s ch i :
  strchr s ch = Some i ->
  s !! i = Some ch /\ (ch ∉ take i s) /\ (NUL ∉ take i s).
Proof.
  revert i. induction s as [|c s IH]; intros i; simpl; [done|].
  destruct (decide (c = ch)) as [->|Hc].
  { intros [= <-]. simpl. repeat split; apply not_elem_of_nil. }
  destruct (decide (c = NUL)) as [->|Hn]; [done|].
  destruct (strchr s ch) as [j|] eqn:Hj; [|done].
  intros [= <-]. destruct (IH j eq_refl) as (? & ? & ?). simpl.
  repeat split; [done|..]; apply not_elem_of_cons; by split.
Qed.

(** [strrchr] points at a [ch] inside the string. *)
Lemma strrchr_Some s ch i :
  strrchr s ch = Some i -> s !! i = Some ch /\ (NUL ∉ take i s).
Proof.
  revert i. induction s as [|c s IH]; intros i; simpl; [done|].
  destruct (decide (c = NUL)) as [->|Hn].
  { destruct (decide (ch = NUL)) as [->|]; [|done].
    intros [= <-]. simpl. split; [done | apply not_elem_of_nil]. }
  destruct (strrchr s ch) as [j|] eqn:Hj.
  - intros [= <-]. destruct (IH j eq_refl). simpl.
    split; [done|]. apply not_elem_of_cons. by split.
  - destruct (decide (c = ch)) as [->|]; [|done].
    intros [= <-]. simpl. split; [done | apply not_elem_of_nil].
Qed.

(** ** [set_file_name] *)

Lemma memcpy_Some dst off src :
  (off + length src <= length dst)%nat ->
  memcpy dst off src = Some (take off dst ++ src ++ drop (off + length src) dst).
Proof. intros. unfold memcpy. by rewrite decide_True. Qed.

Lemma memcpy_Some_inv dst off src r :
  memcpy dst off src = Some r ->
  (off + length src <= length dst)%nat /\
  r = take off dst ++ src ++ drop (off + length src) dst.
Proof. unfold memcpy. case_decide; naive_solver. Qed.

Lemma store_Some_inv dst off c r :
  store dst off c = Some r -> (off < length dst)%nat /\ r = <[off := c]> dst.
Proof. unfold store. case_decide; naive_solver. Qed.

Lemma store_Some dst off c :
  (off < length dst)%nat -> store dst off c = Some (<[off := c]> dst).
Proof. intros. unfold store. by rewrite decide_True. Qed.

(** [set_file_name] is defined when the name and its terminator fit after
    the handle, and then writes [path], a slash, [name] and a NUL there,
    leaving the rest of the block and the handle alone. *)
Lemma set_file_name_Some path name handle :
  (strlen path + 1 + strlen name + 1 <= length (inline handle))%nat ->
  set_file_name path name handle =
    Some {| hdr := hdr handle;
            inline := c_str path ++ SLASH :: c_str name ++ NUL ::
                      drop (strlen path + 1 + strlen name + 1) (inline handle) |}.
Proof.
  intros Hlen. unfold set_file_name.
  rewrite str_bytes_strlen, str_bytes_strlen_1.
  set (f0 := inline handle) in *.
  set (a := c_str path). set (n := c_str name).
  assert (Hp : strlen path = length a) by done.
  assert (Hn : strlen name = length n) by done.
  rewrite Hp, Hn in *. clearbody a n f0.
  destruct (lookup_lt_is_Some_2 f0 (length a)) as [c Hc]; [lia|].
  rewrite memcpy_Some by lia. simpl.
  rewrite (drop_S _ _ _ Hc).
  rewrite store_Some by (rewrite length_app; simpl; lia). simpl.
  rewrite insert_app_r_alt, Nat.sub_diag by lia. simpl.
  rewrite memcpy_Some; simpl.
  2:{ rewrite !length_app. simpl. rewrite ?length_drop, ?length_app. simpl. lia. }
  do 2 f_equal.
  set (rest := drop (S (length a)) f0).
  assert (Hl : length (a ++ [SLASH]) = (length a + 1)%nat)
    by (rewrite length_app; simpl; lia).
  replace (a ++ SLASH :: rest) with ((a ++ [SLASH]) ++ rest)
    by (by rewrite <- app_assoc).
  rewrite take_app_length' by done.
  rewrite drop_app_add' by done.
  rewrite <- !app_assoc. simpl. do 3 f_equal.
  unfold rest. rewrite drop_drop, length_app. simpl. do 2 f_equal. lia.
Qed.

Lemma set_file_name_Some_inv path name handle handle' :
  set_file_name path name handle = Some handle' ->
  (strlen path + 1 + strlen name + 1 <= length (inline handle))%nat.
Proof.
  unfold set_file_name. rewrite str_bytes_strlen, str_bytes_strlen_1.
  intros H.
  destruct (memcpy _ 0 _) as [f1|] eqn:H1; [|done]. simpl in H.
  destruct (store f1 _ _) as [f2|] eqn:H2; [|done]. simpl in H.
  destruct (memcpy f2 _ _) as [f3|] eqn:H3; [|done].
  apply memcpy_Some_inv in H1 as [_ ->], H3 as [H3 _].
  apply store_Some_inv in H2 as [_ ->].
  rewrite length_insert, !length_app, length_drop in H3. simpl in H3.
  unfold strlen in *. lia.
Qed.

(** After [set_file_name] the name of the handle is [path/name]. *)
Lemma set_file_name_get_file_name path name handle handle' :
  set_file_name path name handle = Some handle' ->
  get_file_name handle' = c_str path ++ SLASH :: c_str name /\
  hdr handle' = hdr handle /\
  length (inline handle') = length (inline handle).
Proof.
  intros H. pose proof (set_file_name_Some_inv _ _ _ _ H) as Hlen.
  rewrite set_file_name_Some in H by done. injection H as <-.
  unfold get_file_name. simpl. split; [|split; [done|]].
  - rewrite c_str_app by apply c_str_nul_free. f_equal. simpl.
    f_equal. apply c_str_nul, c_str_nul_free.
  - rewrite length_app. simpl. rewrite length_app. simpl.
    rewrite length_drop. unfold strlen in *. lia.
Qed.

(** ** What the housekeeping functions do to a process *)

Section Evolution.
Context {K : Type} `{!Posix K}.
Context (KR : K -> K -> Prop) `{!PreOrder KR} (HKR : kernel_respects KR).
Implicit Types (p : proc K).

#[local] Instance evolves_preorder : PreOrder (evolves KR).
Proof.
  split.
  - intros p. split; [done|]. exists [], []. by rewrite !app_nil_r.
  - intros p1 p2 p3 (Hk1 & evs1 & errs1 & Ht1 & He1 & Hh1)
      (Hk2 & evs2 & errs2 & Ht2 & He2 & Hh2).
    split; [by etrans|]. exists (evs1 ++ evs2), (errs1 ++ errs2).
    rewrite Ht2, Ht1, He2, He1, !app_assoc, forallb_app, Hh1, Hh2. done.
Qed.

Lemma preserves_mret {A} (a : A) : preserves (evolves KR) (mret a : M K A).
Proof. intros p ? ? [= <- <-]. reflexivity. Qed.

Lemma preserves_bind {A B} (m : M K A) (f : A -> M K B) :
  preserves (evolves KR) m -> (forall a, preserves (evolves KR) (f a)) ->
  preserves (evolves KR) (m ≫= f).
Proof.
  intros Hm Hf p b p2 Hrun.
  apply bind_Ret_inv in Hrun as (a & p1 & Ha & Hb).
  etrans; [by eapply Hm | by eapply Hf].
Qed.

Lemma preserves_defined {A} (o : option A) :
  preserves (evolves KR) (defined o : M K A).
Proof. intros p a p'. unfold defined. destruct o; intros [= <- <-]. reflexivity. Qed.

Lemma preserves_undefined {A} : preserves (evolves KR) (undefined : M K A).
Proof. by intros p a p'. Qed.

Lemma preserves_out_of_fuel {A} : preserves (evolves KR) (out_of_fuel : M K A).
Proof. by intros p a p'. Qed.

Lemma preserves_get_errno : preserves (evolves KR) (get_errno : M K Z).
Proof. intros p a p' [= <- <-]. reflexivity. Qed.

Lemma preserves_push_error code fmt args :
  preserves (evolves KR) (push_error code fmt args : M K unit).
Proof.
  intros p a p' [= <- <-]. split; [reflexivity|]. simpl.
  exists [], [Pushed code fmt args]. by rewrite app_nil_r.
Qed.

Lemma preserves_mark_error : preserves (evolves KR) (mark_error : M K unit).
Proof.
  intros p a p' [= <- <-]. split; [reflexivity|]. simpl.
  exists [], [Marked]. by rewrite app_nil_r.
Qed.

Lemma preserves_sys {A} (call : K -> sysret A * K) val failure ev :
  (forall k, KR k (call k).2) -> (forall r, housekeeping (ev r) = true) ->
  preserves (evolves KR) (sys call val failure ev).
Proof.
  intros Hcall Hev p r p' Hrun.
  apply sys_Ret_inv in Hrun as (Hk & He & Ht & _).
  split; [specialize (Hcall (kernel p)); by rewrite Hk in Hcall|].
  eexists [_], []. rewrite app_nil_r. simpl. by rewrite Hev.
Qed.

Lemma preserves_posix_stat path st :
  preserves (evolves KR) (posix_stat path st).
Proof.
  apply preserves_bind; [|intros; apply preserves_mret].
  apply preserves_sys; [apply HKR | done].
Qed.

Lemma preserves_posix_mkdir path mode :
  preserves (evolves KR) (posix_mkdir path mode).
Proof.
  apply preserves_bind; [|intros; apply preserves_mret].
  apply preserves_sys; [apply HKR | done].
Qed.

Lemma preserves_posix_open_rdonly path mode :
  preserves (evolves KR) (posix_open path O_RDONLY mode).
Proof.
  apply preserves_bind; [|intros; apply preserves_mret].
  apply preserves_sys; [apply HKR | done].
Qed.

Lemma preserves_posix_fsync fd : preserves (evolves KR) (posix_fsync fd).
Proof.
  apply preserves_bind; [|intros; apply preserves_mret].
  apply preserves_sys; [apply HKR | done].
Qed.

Lemma preserves_posix_close fd : preserves (evolves KR) (posix_close fd).
Proof.
  apply preserves_bind; [|intros; apply preserves_mret].
  apply preserves_sys; [apply HKR | done].
Qed.

End Evolution.

(** Goes through a function's body, one call at a time. *)
Ltac evolve_side := solve [ exact _ | assumption ].

(** [known] settles the calls of functions already gone through. *)
Ltac evolve_with known :=
  repeat first
    [ known
    | simple apply preserves_mret; evolve_side
    | simple apply preserves_defined; evolve_side
    | simple apply preserves_undefined
    | simple apply preserves_out_of_fuel
    | simple apply preserves_get_errno; evolve_side
    | simple apply preserves_push_error; evolve_side
    | simple apply preserves_mark_error; evolve_side
    | simple apply preserves_posix_stat; evolve_side
    | simple apply preserves_posix_mkdir; evolve_side
    | simple apply preserves_posix_open_rdonly; evolve_side
    | simple apply preserves_posix_fsync; evolve_side
    | simple apply preserves_posix_close; evolve_side
    | simple apply preserves_bind; [evolve_side | | intros ?]
    | match goal with
      | |- preserves _ (if ?b then _ else _) => destruct b
      | |- preserves _ (match ?x with _ => _ end) => destruct x
      end ].

Section Housekeeping.
Context {K : Type} `{!Posix K}.
Context (KR : K -> K -> Prop) `{!PreOrder KR} (HKR : kernel_respects KR).

Lemma fsync_parent_directory_evolves file :
  preserves (evolves KR) (fsync_parent_directory file).
Proof. unfold fsync_parent_directory. evolve_with fail. Qed.

Lemma ensure_file_path_loop_evolves fuel file cur st :
  preserves (evolves KR) (ensure_file_path_loop fuel file cur st).
Proof.
  revert file cur st. induction fuel as [|fuel IH]; intros file cur st; simpl.
  - evolve_with fail.
  - evolve_with ltac:(first [ simple apply IH
                            | simple apply fsync_parent_directory_evolves ]).
Qed.

Lemma ensure_file_path_evolves junk file :
  preserves (evolves KR) (ensure_file_path junk file).
Proof.
  unfold ensure_file_path.
  evolve_with ltac:(simple apply ensure_file_path_loop_evolves).
Qed.

End Housekeeping.

(** ** Runs of the primitives *)

Section Runs.
Context {K : Type} `{!Posix K}.
Implicit Types (p : proc K).

Lemma mret_Ret_inv {A} (a b : A) p p' :
  (mret a : M K A) p = Ret b p' -> b = a /\ p' = p.
Proof. by intros [= <- <-]. Qed.

Lemma defined_Ret_inv {A} (o : option A) a p p' :
  defined o p = Ret a p' -> o = Some a /\ p' = p.
Proof. unfold defined. destruct o; by intros [= <- <-]. Qed.

Lemma get_errno_Ret_inv e p p' :
  get_errno p = Ret e p' -> e = errno p /\ p' = p.
Proof. by intros [= <- <-]. Qed.

Lemma push_error_Ret_inv code fmt args u p p' :
  push_error code fmt args p = Ret u p' ->
  kernel p' = kernel p /\ errno p' = errno p /\ trace p' = trace p /\
  errors p' = errors p ++ [Pushed code fmt args].
Proof. intros Hrun. injection Hrun as _ <-. done. Qed.

Lemma mark_error_Ret_inv u p p' :
  mark_error p = Ret u p' ->
  kernel p' = kernel p /\ errno p' = errno p /\ trace p' = trace p /\
  errors p' = errors p ++ [Marked].
Proof. intros Hrun. injection Hrun as _ <-. done. Qed.

(** [stat] either fills [st] and returns 0, or leaves it alone, sets
    [errno] and returns -1. *)
Lemma posix_stat_Ret_inv path st r st' p p' :
  posix_stat path st p = Ret (r, st') p' ->
  errors p' = errors p /\ trace p' = trace p ++ [EvStat path r] /\
  ((r = 0 /\ k_stat path (kernel p) = (SysOk st', kernel p') /\
    errno p' = errno p) \/
   (r = -1 /\ st' = st /\
    k_stat path (kernel p) = (SysErr (errno p'), kernel p'))).
Proof.
  intros Hrun. apply bind_Ret_inv in Hrun as (x & p1 & Hsys & Hret).
  apply sys_Ret_inv in Hsys as (Hk & He & Ht & Hn).
  apply mret_Ret_inv in Hret as [Hx ->].
  destruct x; injection Hx as -> ->; subst; eauto 10.
Qed.

(** A call that returns an [int]: 0 (or a descriptor) on success, -1
    with [errno] set on failure. *)
Lemma posix_mkdir_Ret_inv path mode r p p' :
  posix_mkdir path mode p = Ret r p' ->
  errors p' = errors p /\ trace p' = trace p ++ [EvMkdir path mode r] /\
  ((r = 0 /\ errno p' = errno p) \/ r = -1).
Proof.
  intros Hrun. apply bind_Ret_inv in Hrun as (x & p1 & Hsys & Hret).
  apply sys_Ret_inv in Hsys as (Hk & He & Ht & Hn).
  apply mret_Ret_inv in Hret as [-> ->]. destruct x; eauto 10.
Qed.

Lemma posix_open_Ret_inv path flags mode r p p' :
  posix_open path flags mode p = Ret r p' ->
  errors p' = errors p /\ trace p' = trace p ++ [EvOpen path flags mode r] /\
  ((0 <= r /\ errno p' = errno p /\
    k_open path flags mode (kernel p) = (SysOk (Z.to_N r), kernel p')) \/
   (r = -1 /\
    k_open path flags mode (kernel p) = (SysErr (errno p'), kernel p'))).
Proof.
  intros Hrun. apply bind_Ret_inv in Hrun as (x & p1 & Hsys & Hret).
  apply sys_Ret_inv in Hsys as (Hk & He & Ht & Hn).
  apply mret_Ret_inv in Hret as [-> ->].
  destruct x as [n|e]; subst; (split; [done|]); (split; [done|]);
    [left | right]; rewrite ?N2Z.id; eauto using N2Z.is_nonneg.
Qed.

Lemma posix_fsync_Ret_inv fd r p p' :
  posix_fsync fd p = Ret r p' ->
  errors p' = errors p /\ trace p' = trace p ++ [EvFsync fd r] /\
  ((r = 0 /\ errno p' = errno p) \/ r = -1).
Proof.
  intros Hrun. apply bind_Ret_inv in Hrun as (x & p1 & Hsys & Hret).
  apply sys_Ret_inv in Hsys as (Hk & He & Ht & Hn).
  apply mret_Ret_inv in Hret as [-> ->]. destruct x; eauto 10.
Qed.

Lemma posix_close_Ret_inv fd r p p' :
  posix_close fd p = Ret r p' ->
  errors p' = errors p /\ trace p' = trace p ++ [EvClose fd r] /\
  ((r = 0 /\ errno p' = errno p) \/ r = -1).
Proof.
  intros Hrun. apply bind_Ret_inv in Hrun as (x & p1 & Hsys & Hret).
  apply sys_Ret_inv in Hsys as (Hk & He & Ht & Hn).
  apply mret_Ret_inv in Hret as [-> ->]. destruct x; eauto 10.
Qed.

End Runs.

(** Splits the run [H] of a sequence at its first call. *)
Ltac run_step H :=
  lazymatch type of H with
  | (defined _ ≫= _) _ = Ret _ _ =>
      let H1 := fresh "Hdef" in
      apply bind_Ret_inv in H as (? & ? & H1 & H);
      apply defined_Ret_inv in H1 as [H1 ->]
  | (get_errno ≫= _) _ = Ret _ _ =>
      let H1 := fresh in
      apply bind_Ret_inv in H as (? & ? & H1 & H);
      apply get_errno_Ret_inv in H1 as [-> ->]
  | (push_error _ _ _ ≫= _) _ = Ret _ _ =>
      let H1 := fresh "Hpush" in
      apply bind_Ret_inv in H as (? & ? & H1 & H);
      apply push_error_Ret_inv in H1 as (? & ? & ? & ?)
  | (mark_error ≫= _) _ = Ret _ _ =>
      let H1 := fresh "Hmark" in
      apply bind_Ret_inv in H as (? & ? & H1 & H);
      apply mark_error_Ret_inv in H1 as (? & ? & ? & ?)
  | (_ ≫= _) _ = Ret _ _ =>
      let H1 := fresh "Hcall" in
      apply bind_Ret_inv in H as (? & ? & H1 & H)
  | mret _ _ = Ret _ _ =>
      apply mret_Ret_inv in H as [? ?]; simplify_eq/=
  | push_error _ _ _ _ = Ret _ _ =>
      apply push_error_Ret_inv in H as (? & ? & ? & ?)
  | mark_error _ = Ret _ _ =>
      apply mark_error_Ret_inv in H as (? & ? & ? & ?)
  end.

(** The same, naming the value, the state and the run of the first call. *)
Tactic Notation "run_call" hyp(H) "as" simple_intropattern(a) ident(q) ident(Hc) :=
  apply bind_Ret_inv in H as (a & q & Hc & H).

(** Rewrites the trace and the errors of the last state down to those of
    the first. *)
Ltac chain :=
  repeat match goal with
    | H : trace _ = _ |- _ => rewrite H; clear H
    | H : errors _ = _ |- _ => rewrite H; clear H
    end;
  rewrite <- ?app_assoc.

(** ** [create_file] *)

Section CreateFile.
Context {K : Type} `{!Posix K}.
Implicit Types (p : proc K).

(** C1, what the code does: when [stat] fails on [path/name] (the file
    does not exist), [isNew] is false, because line 126 negates the
    result of [stat]: [create_file] then makes no other call than the
    [open] of line 140, so it creates no directory and syncs none, also
    when it returns true. *)
Theorem create_file_of_absent_file (junk : indeterminate)
    (path name : list ascii) (handle : handle_mem) p e k b handle' p' :
  k_stat (c_str path ++ SLASH :: c_str name) (kernel p) = (SysErr e, k) ->
  create_file junk path name handle p = Ret (b, handle') p' ->
  exists evs,
    trace p' =
      trace p ++ EvStat (c_str path ++ SLASH :: c_str name) (-1) :: evs /\
    (evs = [] \/
     exists r,
       evs = [EvOpen (c_str path ++ SLASH :: c_str name)
                create_flags create_mode r]) /\
    existsb is_mkdir evs = false /\ existsb is_fsync evs = false /\
    (b = true ->
     evs = [EvOpen (c_str path ++ SLASH :: c_str name)
              create_flags create_mode (fd (hdr handle'))]).
Proof.
  intros Hk Hrun. unfold create_file in Hrun.
  run_call Hrun as h1 p0 Hset. apply defined_Ret_inv in Hset as [Hset ->].
  apply set_file_name_get_file_name in Hset as (Hname & _ & _).
  unfold get_file_name in Hname. rewrite Hname in Hrun.
  run_call Hrun as [r st] p1 Hstat.
  apply posix_stat_Ret_inv in Hstat as (He1 & Ht1 & [(_ & Hok & _)|(-> & -> & _)]);
    [congruence|].
  simpl in Hrun. destruct (S_ISDIR _).
  - do 2 run_step Hrun. exists []. chain. naive_solver.
  - unfold create_file_open in Hrun. rewrite Hname in Hrun.
    run_call Hrun as fd0 p2 Hopen.
    apply posix_open_Ret_inv in Hopen as (He2 & Ht2 & _).
    destruct (fd0 =? -1) eqn:Hfd.
    + do 3 run_step Hrun. eexists [_]. chain. naive_solver.
    + run_step Hrun. run_step Hcall. simpl in Hrun. run_step Hrun.
      eexists [_]. chain. naive_solver.
Qed.

Lemma housekeeping_elem evs ev :
  forallb housekeeping evs = true -> ev ∈ evs -> housekeeping ev = true.
Proof.
  intros Hall Hin. eapply forallb_forall; [exact Hall|].
  by apply list_elem_of_In.
Qed.

#[local] Instance any_kernel_preorder : PreOrder (fun _ _ : K => True).
Proof. by split. Qed.

Lemma any_kernel_respects : kernel_respects (fun _ _ : K => True).
Proof. by repeat split. Qed.

(** The calls of [ensure_file_path] and [fsync_parent_directory], on
    any kernel. *)
Lemma ensure_file_path_calls junk file p r p' :
  ensure_file_path junk file p = Ret r p' ->
  exists evs errs,
    trace p' = trace p ++ evs /\ errors p' = errors p ++ errs /\
    forallb housekeeping evs = true.
Proof.
  intros Hrun.
  by apply (ensure_file_path_evolves _ any_kernel_respects) in Hrun as [_ ?].
Qed.

Lemma fsync_parent_directory_calls file p r p' :
  fsync_parent_directory file p = Ret r p' ->
  exists evs errs,
    trace p' = trace p ++ evs /\ errors p' = errors p ++ errs /\
    forallb housekeeping evs = true.
Proof.
  intros Hrun.
  by apply (fsync_parent_directory_evolves _ any_kernel_respects) in Hrun as [_ ?].
Qed.

(** Lines 140-155 when they end in failure: either [open] failed, or
    the parent directory could not be synced and the descriptor was
    closed, with an error pushed for the [close] exactly when it
    returned 0. *)
Lemma create_file_open_false isNew hd filename p handle' p' :
  create_file_open isNew hd filename p = Ret (false, handle') p' ->
  (trace p' =
     trace p ++ [EvOpen (c_str filename) create_flags create_mode (-1)]) \/
  (exists fd1 r evs errs,
      fd1 <> -1 /\ forallb housekeeping evs = true /\
      trace p' =
        trace p ++
        EvOpen (c_str filename) create_flags create_mode fd1 ::
        evs ++ [EvClose fd1 r] /\
      errors p' =
        errors p ++ errs ++
        Pushed EIO
          "Unable to fsync parent directory after creating new file: %s"
          [ArgS (get_file_name handle')] ::
        (if r =? 0
         then [Pushed (errno p') "Unable to close file (%i) %s"
                 [ArgI fd1; ArgS (get_file_name handle')]]
         else [])).
Proof.
  intros Hrun. unfold create_file_open in Hrun.
  run_call Hrun as fd1 p1 Hopen.
  apply posix_open_Ret_inv in Hopen as (He1 & Ht1 & _).
  destruct (Z.eqb_spec fd1 (-1)) as [->|Hfd].
  { do 3 run_step Hrun. left. by chain. }
  right. run_call Hrun as [ok filename'] p2 Hsync.
  assert (exists evs errs,
             trace p2 = trace p1 ++ evs /\ errors p2 = errors p1 ++ errs /\
             forallb housekeeping evs = true) as (evs & errs & Ht2 & He2 & Hh).
  { destruct isNew; [by eapply fsync_parent_directory_calls|].
    (* without [isNew] the result would be true *)
    by run_step Hsync. }
  destruct ok; simpl in Hrun; [by run_step Hrun|].
  run_step Hrun. run_call Hrun as r p4 Hclose.
  apply posix_close_Ret_inv in Hclose as (He4 & Ht4 & Hr).
  exists fd1, r, evs, errs. split; [done|]. split; [done|].
  destruct (Z.eqb_spec r 0) as [->|Hr0].
  - run_call Hrun as u p5 Hpush. run_step Hrun. do 2 run_step Hpush.
    unfold get_file_name. simpl. split; chain; [done|].
    match goal with H : errno p5 = errno p4 |- _ => by rewrite H end.
  - run_call Hrun as u p5 Hskip. run_step Hrun. run_step Hskip.
    unfold get_file_name. simpl. by split; chain.
Qed.

(** C2, what the code does: when [create_file] returns false after the
    [open] of line 140 yielded a descriptor, the last call it made is
    the [close] of that descriptor, and the last errors it pushed are
    the [EIO] of line 147 and then, exactly when [close] returned 0
    (success), "Unable to close file"; when [close] returned -1 nothing
    is pushed for it. *)
Theorem create_file_close_report (junk : indeterminate)
    (path name : list ascii) (handle : handle_mem) p handle' p'
    (evs : list event) f mode fd1 :
  create_file junk path name handle p = Ret (false, handle') p' ->
  trace p' = trace p ++ evs ->
  EvOpen f create_flags mode fd1 ∈ evs ->
  fd1 <> -1 ->
  exists evs' r errs,
    evs = evs' ++ [EvClose fd1 r] /\
    errors p' =
      errors p ++ errs ++
      Pushed EIO
        "Unable to fsync parent directory after creating new file: %s"
        [ArgS (get_file_name handle')] ::
      (if r =? 0
       then [Pushed (errno p') "Unable to close file (%i) %s"
               [ArgI fd1; ArgS (get_file_name handle')]]
       else []).
Proof.
  intros Hrun Hevs Hin Hfd. unfold create_file in Hrun.
  symmetry in Hevs.
  run_call Hrun as h1 p0 Hset. apply defined_Ret_inv in Hset as [_ ->].
  run_call Hrun as [r st] p1 Hstat.
  apply posix_stat_Ret_inv in Hstat as (He1 & Ht1 & _).
  assert (exists hd filename p2 evs2 errs2,
             create_file_open (r =? 0) hd filename p2 = Ret (false, handle') p' /\
             trace p2 = trace p ++ evs2 /\ errors p2 = errors p ++ errs2 /\
             forallb housekeeping evs2 = true)
    as (hd & filename & p2 & evs2 & errs2 & Hopen & Ht2 & He2 & Hh2).
  { destruct (r =? 0) eqn:Hnew.
    - run_call Hrun as [ok filename] p2 Hens.
      apply ensure_file_path_calls in Hens as (evs2 & errs2 & Ht2 & He2 & Hh2).
      destruct ok; simpl in Hrun.
      + exists (hdr h1), filename, p2, (EvStat (c_str (inline h1)) r :: evs2), errs2.
        split; [done|]. by chain.
      + do 2 run_step Hrun. exfalso.
        assert (evs = EvStat (c_str (inline h1)) r :: evs2) as ->.
        { eapply app_inv_head. rewrite Hevs. by chain. }
        apply elem_of_cons in Hin as [?|Hin]; [done|].
        by apply (housekeeping_elem _ _ Hh2) in Hin.
    - destruct (S_ISDIR _).
      + do 2 run_step Hrun. exfalso.
        assert (evs = [EvStat (c_str (inline h1)) r]) as ->.
        { eapply app_inv_head. rewrite Hevs. by chain. }
        by apply list_elem_of_singleton in Hin.
      + exists (hdr h1), (inline h1), p1, [EvStat (c_str (inline h1)) r], [].
        rewrite app_nil_r. done. }
  apply create_file_open_false in Hopen
    as [Ht|(fd & r' & evs3 & errs3 & Hne & Hh3 & Ht & He)].
  - exfalso. rewrite Ht, Ht2, <- app_assoc in Hevs. apply app_inv_head in Hevs.
    subst evs. apply elem_of_app in Hin as [Hin|Hin].
    + by apply (housekeeping_elem _ _ Hh2) in Hin.
    + apply list_elem_of_singleton in Hin. congruence.
  - rewrite Ht, Ht2, <- app_assoc in Hevs. apply app_inv_head in Hevs.
    assert (fd = fd1) as ->.
    { subst evs. apply elem_of_app in Hin as [Hin|Hin].
      { by apply (housekeeping_elem _ _ Hh2) in Hin. }
      apply elem_of_cons in Hin as [Hin|Hin]; [congruence|].
      apply elem_of_app in Hin as [Hin|Hin].
      { by apply (housekeeping_elem _ _ Hh3) in Hin. }
      by apply list_elem_of_singleton in Hin. }
    exists (evs2 ++ EvOpen (c_str filename) create_flags create_mode fd1 :: evs3),
      r', (errs2 ++ errs3).
    split; [by rewrite Hevs, <- app_assoc|].
    by rewrite He, He2, <- !app_assoc.
Qed.

End CreateFile.

(** ** The examples, run *)

(** [db] exists and [db/data] does not: [create_file] returns true
    after two calls, [stat] and [open]. *)
Lemma create_file_of_absent_file_witness :
  exists handle' p',
    Examples.create_absent = Ret (true, handle') p' /\
    fd (hdr handle') = 3 /\
    trace p' =
      [EvStat (lit "db/data") (-1);
       EvOpen (lit "db/data") create_flags create_mode 3] /\
    exists evs,
      trace p' =
        trace (RefFS.start Examples.empty_db []) ++
        EvStat (c_str (lit "db") ++ SLASH :: c_str (lit "data")) (-1) :: evs /\
      existsb is_mkdir evs = false /\ existsb is_fsync evs = false.
Proof.
  eexists _, _. split; [vm_compute; reflexivity|].
  split; [reflexivity|]. split; [reflexivity|].
  destruct (@create_file_of_absent_file RefFS.state RefFS.posix Examples.junk (lit "db") (lit "data")
              Examples.fresh_handle (RefFS.start Examples.empty_db [])
              ENOENT _ _ _ _ ltac:(vm_compute; reflexivity)
              ltac:(vm_compute; reflexivity))
    as (evs & Ht & _ & Hm & Hf & _).
  exists evs. split; [exact Ht|]. split; [exact Hm | exact Hf].
Defined.

(** [db/data] exists, the second [stat] and the [fsync] of [db] fail:
    [create_file] returns false, the [close] of descriptor 3 returns 0,
    and "Unable to close file" is pushed all the same. *)
Lemma create_file_close_report_witness :
  exists handle' p',
    Examples.create_sync_fails = Ret (false, handle') p' /\
    trace p' =
      [EvStat (lit "db/data") 0; EvStat (lit "db/data") (-1);
       EvOpen (lit "db/data") create_flags create_mode 3;
       EvOpen (lit "db") O_RDONLY 0 4; EvFsync 4 (-1); EvClose 4 0;
       EvClose 3 0] /\
    last (errors p') =
      Some (Pushed EIO "Unable to close file (%i) %s"
              [ArgI 3; ArgS (lit "db/data")]) /\
    exists evs' r errs,
      trace p' = evs' ++ [EvClose 3 r] /\
      errors p' =
        errors (RefFS.start Examples.db_with_data Examples.sync_fails_plan) ++
        errs ++
        Pushed EIO
          "Unable to fsync parent directory after creating new file: %s"
          [ArgS (get_file_name handle')] ::
        (if r =? 0
         then [Pushed (errno p') "Unable to close file (%i) %s"
                 [ArgI 3; ArgS (get_file_name handle')]]
         else []).
Proof.
  eexists _, _. split; [vm_compute; reflexivity|].
  split; [reflexivity|]. split; [reflexivity|].
  exact (@create_file_close_report RefFS.state RefFS.posix Examples.junk
           (lit "db") (lit "data") Examples.fresh_handle
           (RefFS.start Examples.db_with_data Examples.sync_fails_plan)
           _ _ _ (lit "db/data") create_mode 3
           ltac:(vm_compute; reflexivity) ltac:(reflexivity)
           ltac:(vm_compute; do 2 apply list_elem_of_further;
                 apply list_elem_of_here)
           ltac:(discriminate)).
Defined.

(** When the [close] of descriptor 3 fails as well, nothing is pushed
    for it: the last error is the [EIO] of line 147. *)
Example create_file_close_failure_unreported :
  exists handle' p',
    Examples.create_close_fails = Ret (false, handle') p' /\
    last (trace p') = Some (EvClose 3 (-1)) /\
    last (errors p') =
      Some (Pushed EIO
              "Unable to fsync parent directory after creating new file: %s"
              [ArgS (lit "db/data")]).
Proof. eexists _, _. split; [vm_compute; reflexivity|]. by split. Qed.

(** Where the directory [db] is missing too, it is not created: [open]
    fails and [create_file] returns false. *)
Example create_file_missing_directory :
  exists handle' p',
    Examples.create_orphan = Ret (false, handle') p' /\
    trace p' =
      [EvStat (lit "db/data") (-1);
       EvOpen (lit "db/data") create_flags create_mode (-1)] /\
    errors p' = [Pushed ENOENT "Unable to open file %s" [ArgS (lit "db/data")]].
Proof. eexists _, _. split; [vm_compute; reflexivity|]. by split. Qed.

(** Where [db/data] exists, [ensure_file_path] runs, cuts the name at
    its slash, and the [open] that follows is of the directory [db]:
    [create_file] returns false. *)
Example create_file_existing_file :
  exists handle' p',
    Examples.create_present = Ret (false, handle') p' /\
    get_file_name handle' = lit "db" /\
    trace p' =
      [EvStat (lit "db/data") 0; EvStat (lit "db/data") 0;
       EvStat (lit "db") 0; EvMkdir (lit "db") S_IRWXU (-1);
       EvOpen (lit ".") O_RDONLY 0 3; EvFsync 3 0; EvClose 3 0;
       EvOpen (lit "db") create_flags create_mode (-1)] /\
    errors p' = [Pushed EISDIR "Unable to open file %s" [ArgS (lit "db")]].
Proof. eexists _, _. split; [vm_compute; reflexivity|]. by repeat split. Qed.

(** Descriptor 3 is open on [db/data], of ten bytes; descriptor 7 is not
    open. *)
Lemma get_file_size_spec_witness :
  (exists p',
      get_file_size Examples.junk Examples.data_handle 0
        Examples.with_data_open = Ret (true, 10) p' /\
      errors p' = []) /\
  (exists p',
      get_file_size Examples.junk Examples.stale_handle 77
        Examples.with_data_open = Ret (false, 77) p' /\
      errors p' =
        [Pushed EBADF "Unable to stat(%s)" [ArgS (lit "db/data")]]).
Proof.
  split.
  - destruct (@get_file_size_spec RefFS.state RefFS.posix Examples.junk
                Examples.data_handle 0 Examples.with_data_open) as [Hok _].
    destruct (Hok {| st_mode := Z.lor S_IFREG 384; st_size := 10 |}
                (kernel Examples.with_data_open)
                ltac:(vm_compute; reflexivity)) as (p' & Hrun & Herr & _).
    exists p'. split; [exact Hrun | exact Herr].
  - destruct (@get_file_size_spec RefFS.state RefFS.posix Examples.junk
                Examples.stale_handle 77 Examples.with_data_open) as [_ Hfail].
    destruct (Hfail EBADF (kernel Examples.with_data_open)
                ltac:(vm_compute; reflexivity)) as (p' & Hrun & Herr).
    exists p'. split; [exact Hrun | exact Herr].
Defined.

(** Descriptor 3 is open on [db/data]: [map_file] of ten bytes yields
    the address of the mapping; through a descriptor that is not open
    it fails with [EBADF] and [*address], 77 on entry, is 0. *)
Lemma map_file_spec_witness :
  (exists p',
      map_file Examples.data_handle 10 0 Examples.with_data_open
        = Ret (true, 4 * 2 ^ 32) p' /\
      errors p' = [] /\
      trace p' =
        [EvMmap 10 (Z.lor PROT_READ PROT_WRITE) MAP_SHARED 3 (4 * 2 ^ 32)]) /\
  (exists p',
      map_file Examples.stale_handle 10 77 Examples.with_data_open
        = Ret (false, 0) p' /\
      errors p' =
        [Pushed EBADF "Unable to map file %s with size %lu"
           [ArgS (lit "db/data"); ArgI 10]]).
Proof.
  split.
  - destruct (@map_file_spec RefFS.state RefFS.posix Examples.data_handle
                10 0 Examples.with_data_open) as (Hok & _ & _).
    destruct (Hok (4 * 2 ^ 32) (kernel Examples.with_data_open)
                ltac:(vm_compute; reflexivity) ltac:(vm_compute; discriminate))
      as (p' & Hrun & _ & Herr & Ht).
    exists p'. split; [exact Hrun|]. split; [exact Herr | exact Ht].
  - destruct (@map_file_spec RefFS.state RefFS.posix Examples.stale_handle
                10 77 Examples.with_data_open) as (_ & Hfail & _).
    destruct (Hfail EBADF (kernel Examples.with_data_open)
                ltac:(vm_compute; reflexivity)) as (p' & Hrun & _ & Herr & _).
    exists p'. split; [exact Hrun | exact Herr].
Defined.

(** ** What the housekeeping functions do to the file name *)

(** Up to its first slash, a string is its first component. *)
Lemma strchr_c_str s i :
  strchr s SLASH = Some i ->
  c_str s = take i s ++ SLASH :: c_str (drop (S i) s).
Proof.
  revert i. induction s as [|c s IH]; intros i; simpl; [done|].
  destruct (decide (c = SLASH)) as [->|Hc]; [by intros [= <-]|].
  destruct (decide (c = NUL)) as [->|Hn]; [done|].
  destruct (strchr s SLASH) as [j|] eqn:Hj; [|done].
  intros [= <-]. simpl. f_equal. by apply IH.
Qed.

(** Cutting a string at an offset inside it. *)
Lemma c_str_insert_nul s i :
  (i < length s)%nat -> NUL ∉ take i s -> c_str (<[i := NUL]> s) = take i s.
Proof.
  intros Hi Hn.
  rewrite <- (take_drop i s) at 1.
  rewrite insert_app_r_alt by (rewrite length_take; lia).
  rewrite length_take, Nat.min_l, Nat.sub_diag by lia.
  destruct (drop i s) as [|c rest] eqn:Hd.
  { apply (f_equal length) in Hd. rewrite length_drop in Hd. simpl in Hd. lia. }
  simpl. by apply c_str_nul.
Qed.

(** A write after the terminator does not change the string. *)
Lemma c_str_insert_after s i j x :
  s !! j = Some NUL -> (j < i)%nat -> c_str (<[i := x]> s) = c_str s.
Proof.
  revert i j. induction s as [|c s IH]; intros i j; [done|].
  destruct j as [|j]; simpl.
  - intros [= ->] Hi. destruct i; [lia|]. done.
  - intros Hj Hi. destruct i as [|i]; [lia|]. simpl.
    destruct (decide (c = NUL)); [done|]. f_equal. apply (IH i j); [done|lia].
Qed.

Section Buffers.
Context {K : Type} `{!Posix K}.
Implicit Types (p : proc K).

(** [fsync_parent_directory] puts back the slash it overwrites. *)
Lemma fsync_parent_directory_buffer file p ok file' p' :
  fsync_parent_directory file p = Ret (ok, file') p' -> file' = file.
Proof.
  intros Hrun. unfold fsync_parent_directory in Hrun.
  run_call Hrun as [fd0 file1] p1 Hopen.
  assert (file1 = file) as ->.
  { destruct (strrchr file SLASH) as [i|] eqn:Hlast.
    - apply strrchr_Some in Hlast as [Hi _].
      run_step Hopen. apply store_Some_inv in Hdef as [_ ->].
      run_call Hopen as fd1 p2 Hcall.
      run_step Hopen. apply store_Some_inv in Hdef as [_ ->].
      run_step Hopen.
      rewrite list_insert_insert_eq. by apply list_insert_id.
    - run_call Hopen as fd1 p2 Hcall. by run_step Hopen. }
  destruct (fd0 =? -1).
  - by do 3 run_step Hrun.
  - run_call Hrun as r1 p2 Hsync. run_call Hrun as res1 p3 Hres1.
    run_call Hrun as r2 p4 Hclose. run_call Hrun as res2 p5 Hres2.
    by run_step Hrun.
Qed.

(** Once the name is cut at a separator left of [cur], the loop no longer
    changes the string the buffer starts with. *)
Lemma ensure_file_path_loop_buffer fuel file cur st p ok file' p' j :
  file !! j = Some NUL -> (j < cur)%nat ->
  ensure_file_path_loop fuel file cur st p = Ret (ok, file') p' ->
  c_str file' = c_str file.
Proof.
  revert file cur st p. induction fuel as [|fuel IH];
    intros file cur st p Hj Hcur Hrun; simpl in Hrun; [done|].
  run_step Hrun. rename x into c. destruct (decide (c = NUL)); [done|].
  destruct (strchr (drop cur file) SLASH) as [off|] eqn:Hoff;
    [|by run_step Hrun].
  run_step Hrun. apply store_Some_inv in Hdef0 as [Hlt ->].
  set (file1 := <[(cur + off)%nat := NUL]> file) in *.
  assert (Hstr1 : c_str file1 = c_str file)
    by (apply (c_str_insert_after _ _ j); [done|lia]).
  assert (Hj1 : file1 !! j = Some NUL)
    by (unfold file1; rewrite list_lookup_insert_ne by lia; done).
  assert (Hback : c_str (<[(cur + off)%nat := SLASH]> file1) = c_str file).
  { rewrite <- Hstr1. apply (c_str_insert_after _ _ j); [done|lia]. }
  run_call Hrun as [r st1] p1 Hstat.
  destruct (negb (r =? 0)).
  - destruct (negb (S_ISDIR (st_mode st1))).
    + run_step Hrun. run_step Hrun.
      apply store_Some_inv in Hdef0 as [_ ->]. by run_step Hrun.
    + rewrite <- Hstr1. apply (IH _ _ _ _ Hj1) in Hrun; [done|lia].
  - run_call Hrun as r2 p2 Hmkdir. run_step Hrun.
    destruct ((r2 =? -1) && negb (errno p2 =? EEXIST)).
    + run_step Hrun. run_step Hrun.
      apply store_Some_inv in Hdef0 as [_ ->]. by run_step Hrun.
    + run_call Hrun as [ok1 file2] p3 Hsync.
      apply fsync_parent_directory_buffer in Hsync as ->.
      destruct (negb ok1).
      * run_step Hrun. run_step Hrun.
        apply store_Some_inv in Hdef0 as [_ ->]. by run_step Hrun.
      * rewrite <- Hstr1. apply (IH _ _ _ _ Hj1) in Hrun; [done|lia].
Qed.

(** When [ensure_file_path] returns true, either it left the buffer
    alone, or its first [stat] succeeded and the buffer now holds only
    the first component of the name. *)
Lemma ensure_file_path_true junk file p file' p' :
  ensure_file_path junk file p = Ret (true, file') p' ->
  file' = file \/
  exists off st k,
    k_stat (c_str file) (kernel p) = (SysOk st, k) /\
    strchr file SLASH = Some off /\ c_str file' = take off file.
Proof.
  intros Hrun. unfold ensure_file_path in Hrun.
  run_call Hrun as [r st] p1 Hstat.
  apply posix_stat_Ret_inv in Hstat as (_ & _ & [(-> & Hk & _)|(-> & -> & _)]);
    simpl in Hrun.
  2:{ destruct (S_ISDIR _); [by do 2 run_step Hrun|]. run_step Hrun. by left. }
  run_step Hrun. rename x into c. destruct (decide (c = NUL)); [done|].
  rewrite drop_0 in Hrun.
  destruct (strchr file SLASH) as [off|] eqn:Hoff;
    [|run_step Hrun; by left].
  right. exists off, st, (kernel p1). split; [done|]. split; [done|].
  apply strchr_Some in Hoff as (Hs & _ & Hn).
  run_step Hrun. apply store_Some_inv in Hdef0 as [Hlt ->]. simpl in *.
  set (file1 := <[off := NUL]> file) in *.
  assert (Hstr1 : c_str file1 = take off file) by by apply c_str_insert_nul.
  assert (Hj1 : file1 !! off = Some NUL) by by apply list_lookup_insert_eq.
  run_call Hrun as [r st1] p2 Hstat.
  destruct (negb (r =? 0)).
  - destruct (negb (S_ISDIR (st_mode st1))).
    + run_step Hrun. run_step Hrun. by run_step Hrun.
    + rewrite <- Hstr1.
      apply (ensure_file_path_loop_buffer _ _ _ _ _ _ _ _ _ Hj1) in Hrun;
        [done|lia].
  - run_call Hrun as r2 p3 Hmkdir. run_step Hrun.
    destruct ((r2 =? -1) && negb (errno p3 =? EEXIST)).
    + run_step Hrun. run_step Hrun. by run_step Hrun.
    + run_call Hrun as [ok1 file2] p4 Hsync.
      apply fsync_parent_directory_buffer in Hsync as ->.
      destruct (negb ok1).
      * run_step Hrun. run_step Hrun. by run_step Hrun.
      * rewrite <- Hstr1.
        apply (ensure_file_path_loop_buffer _ _ _ _ _ _ _ _ _ Hj1) in Hrun;
          [done|lia].
Qed.

End Buffers.

(** ** The reference file system *)

Section RefFSFacts.
Import RefFS.
Implicit Types (fs : gmap place node) (k : state).

Lemma split_slash_nonempty s : split_slash s <> [].
Proof.
  destruct s as [|c s]; simpl; [done|].
  destruct (decide (c = SLASH)); [done|]. by destruct (split_slash s).
Qed.

Lemma split_slash_component c rest :
  SLASH ∉ c -> split_slash (c ++ SLASH :: rest) = c :: split_slash rest.
Proof.
  induction c as [|x c IH]; intros Hc; simpl; [done|].
  apply not_elem_of_cons in Hc as [Hx Hc].
  rewrite decide_False by done. by rewrite IH.
Qed.

Lemma split_slash_single c : SLASH ∉ c -> split_slash c = [c].
Proof.
  induction c as [|x c IH]; intros Hc; simpl; [done|].
  apply not_elem_of_cons in Hc as [Hx Hc].
  rewrite decide_False by done. by rewrite IH.
Qed.

(** What is found stays found when the tree grows. *)
Lemma walk_mono fs fs' cur n pieces pl m :
  fs ⊆ fs' ->
  walk fs cur n pieces = Found pl m -> walk fs' cur n pieces = Found pl m.
Proof.
  intros Hsub. revert cur n.
  induction pieces as [|x ps IH]; intros cur n; cbn [walk]; [done|].
  destruct n; [done|].
  case_decide; [apply IH|]. case_decide; [apply IH|].
  destruct (fs !! (cur ++ [x])) as [n'|] eqn:Hn.
  - rewrite (lookup_weaken _ _ _ _ Hn Hsub). apply IH.
  - by destruct ps.
Qed.

(** A missing last component names no node. *)
Lemma walk_Missing fs cur n pieces parent x :
  walk fs cur n pieces = Missing parent x -> fs !! (parent ++ [x]) = None.
Proof.
  revert cur n. induction pieces as [|y ps IH]; intros cur n; cbn [walk]; [done|].
  destruct n; [done|].
  case_decide; [apply IH|]. case_decide; [apply IH|].
  destruct (fs !! (cur ++ [y])) as [n'|] eqn:Hn; [apply IH|].
  destruct ps; [|done]. by intros [= <- <-].
Qed.

Lemma resolve_nonempty fs path :
  path <> [] -> resolve fs path = walk fs [] Dir (split_slash path).
Proof. by destruct path. Qed.

(** When [c/rest] resolves, [c] is empty or resolves to a directory. *)
Lemma resolve_first_component fs c rest pl n :
  SLASH ∉ c ->
  resolve fs (c ++ SLASH :: rest) = Found pl n ->
  c = [] \/ exists pl', resolve fs c = Found pl' Dir.
Proof.
  intros Hc Hres. destruct (decide (c = [])) as [|Hne]; [by left|]. right.
  rewrite resolve_nonempty, split_slash_component in Hres
    by (done || by destruct c).
  rewrite resolve_nonempty, split_slash_single by done.
  destruct (split_slash rest) as [|y ps] eqn:Hps;
    [by apply split_slash_nonempty in Hps|].
  cbn [walk] in *.
  destruct (decide (c = [] \/ c = lit ".")); [by eexists|].
  destruct (decide (c = lit "..")); [by eexists|].
  destruct (fs !! ([] ++ [c])) as [[sz|]|]; [done| |by destruct ps].
  by eexists.
Qed.

#[local] Instance grows_preorder : PreOrder grows.
Proof.
  split; [intros k | intros k1 k2 k3]; unfold grows; [done | by etrans].
Qed.

Lemma faulty_grows {A} (call : state -> sysret A * state) k :
  (forall k0, grows k0 (call k0).2) -> grows k (faulty call k).2.
Proof.
  intros Hcall. unfold faulty.
  set (k1 := Build_state _ _ _ _).
  assert (Hk : grows k k1) by (by unfold grows).
  destruct (faults k) as [|[e|] rest]; simpl; [|done|];
    (etrans; [exact Hk | apply Hcall]).
Qed.

Lemma kernel_grows : kernel_respects grows.
Proof.
  repeat split; intros; apply faulty_grows; intros k0; unfold grows.
  - unfold do_stat. by destruct (resolve _ _).
  - unfold do_mkdir. destruct (resolve _ _) eqn:Hres; simpl; try done.
    apply insert_subseteq. unfold resolve in Hres.
    destruct path; [done|]. by eapply walk_Missing.
  - unfold do_open, open_at.
    destruct (resolve _ _) as [pl [sz|]|parent x|e] eqn:Hres; simpl; try done.
    + by destruct (_ =? _).
    + destruct (_ =? _); simpl; [done|].
      apply insert_subseteq. unfold resolve in Hres.
      destruct path; [done|]. by eapply walk_Missing.
  - unfold do_fsync. by destruct (descriptor _ _).
  - unfold do_close. by destruct (descriptor _ _).
Qed.

(** [open] for writing refuses a directory, and the empty path. *)
Lemma open_directory_refused k c mode r k' :
  c = [] \/ (exists pl, resolve (fs k) c = Found pl Dir) ->
  k_open c create_flags mode k = (r, k') -> exists e, r = SysErr e.
Proof.
  intros Hc. simpl. unfold faulty.
  destruct (faults k) as [|[e|] rest]; simpl;
    try (intros [= <- <-]; by eexists);
    unfold do_open; simpl;
    (destruct Hc as [->|[pl ->]]; simpl; intros [= <- <-]; by eexists).
Qed.

(** A [stat] that succeeds resolved its path. *)
Lemma stat_resolves k path st k' :
  k_stat path k = (SysOk st, k') ->
  grows k k' /\ exists pl n, resolve (fs k) path = Found pl n.
Proof.
  intros Hk. split.
  { pose proof (proj1 kernel_grows path k) as Hg. by rewrite Hk in Hg. }
  revert Hk. simpl. unfold faulty.
  destruct (faults k) as [|[e|] rest]; simpl; try done;
    unfold do_stat; simpl; destruct (resolve _ _); naive_solver.
Qed.

(** [ensure_file_path] removes nothing from the tree. *)
Lemma ensure_file_path_grows junk file (p : proc state) r p' :
  ensure_file_path junk file p = Ret r p' -> grows (kernel p) (kernel p').
Proof.
  intros Hrun.
  by apply (ensure_file_path_evolves _ kernel_grows) in Hrun as [? _].
Qed.

End RefFSFacts.

(** ** The name stored in the handle *)

(** Lines 140-155 when they end in success: the [open] yielded a
    descriptor, which is now in the handle, and the name is the one
    that was opened. *)
Lemma create_file_open_true {K : Type} `{!Posix K} isNew hd filename
    (p : proc K) handle' p' :
  create_file_open isNew hd filename p = Ret (true, handle') p' ->
  exists n k,
    k_open (c_str filename) create_flags create_mode (kernel p) = (SysOk n, k) /\
    handle' = {| hdr := {| fd := Z.of_N n |}; inline := filename |}.
Proof.
  intros Hrun. unfold create_file_open in Hrun.
  run_call Hrun as fd1 p1 Hopen.
  apply posix_open_Ret_inv in Hopen as (_ & _ & [(Hfd & _ & Hk)|(-> & _)]).
  2:{ simpl in Hrun. by do 3 run_step Hrun. }
  destruct (Z.eqb_spec fd1 (-1)) as [->|_]; [lia|].
  run_call Hrun as [ok filename'] p2 Hsync.
  assert (filename' = filename) as ->.
  { destruct isNew; [by eapply fsync_parent_directory_buffer|].
    by run_step Hsync. }
  destruct ok; simpl in Hrun.
  - run_step Hrun. eexists _, _. split; [exact Hk|]. by rewrite Z2N.id.
  - run_step Hrun. run_call Hrun as r p4 Hclose.
    run_call Hrun as u p5 Hpush. by run_step Hrun.
Qed.

(** The first [ch] of a string is the first [ch] of the buffer that
    holds it. *)
Lemma strchr_in_c_str s ch off :
  ch <> NUL -> strchr s ch = Some off ->
  strchr (c_str s) ch = Some off /\ take off (c_str s) = take off s.
Proof.
  intros Hch. revert off. induction s as [|c s IH]; intros off; [done|].
  cbn [strchr c_str].
  destruct (decide (c = ch)) as [->|Hc].
  { intros [= <-]. rewrite decide_False by done. cbn [strchr].
    by rewrite decide_True. }
  destruct (decide (c = NUL)) as [->|Hn]; [done|].
  destruct (strchr s ch) as [j|] eqn:Hj; [|done].
  intros [= <-]. cbn [strchr]. rewrite !decide_False by done.
  destruct (IH j eq_refl) as [-> Htake]. split; [done|].
  cbn [take]. by rewrite Htake.
Qed.

(** C10, what the code does: [get_file_handle_size] is
    [sizeof(file_handle_t)] plus the two lengths plus 2 for non-empty
    strings (when that fits a [size_t]), and 0 when an argument is null
    or empty; [set_file_name] is defined exactly when the block has that
    many bytes, and stores [path/name] right after the handle.  After a
    [create_file] that returns true, on any kernel, the name in the
    handle is [path/name] when [stat] failed (the file was not there);
    when [stat] succeeded it is [path/name] or only the bytes of
    [path/name] before its first slash, because [ensure_file_path] cuts
    the name there and puts the slash back on none of its paths to
    success. *)
Theorem get_file_name_after_create_file (junk : indeterminate)
    (path name : list ascii) (handle : handle_mem) :
  (strlen path <> 0%nat -> strlen name <> 0%nat ->
   sizeof file_handle_t + Z.of_nat (strlen path) + 1 +
     Z.of_nat (strlen name) + 1 < 2 ^ 64 ->
   get_file_handle_size (Some path) (Some name) =
     sizeof file_handle_t + Z.of_nat (strlen path) + 1 +
       Z.of_nat (strlen name) + 1 /\
   (is_Some (set_file_name path name handle) <->
    get_file_handle_size (Some path) (Some name)
      <= name_offset + Z.of_nat (length (inline handle)))) /\
  (strlen path = 0%nat \/ strlen name = 0%nat ->
   get_file_handle_size (Some path) (Some name) = 0) /\
  get_file_handle_size None (Some name) = 0 /\
  get_file_handle_size (Some path) None = 0 /\
  get_file_handle_size None None = 0 /\
  (forall handle1,
      set_file_name path name handle = Some handle1 ->
      get_file_name handle1 = c_str path ++ SLASH :: c_str name) /\
  (forall (K : Type) (HK : Posix K) (p : proc K) handle' p',
      create_file junk path name handle p = Ret (true, handle') p' ->
      (forall e k,
          k_stat (c_str path ++ SLASH :: c_str name) (kernel p)
            = (SysErr e, k) ->
          get_file_name handle' = c_str path ++ SLASH :: c_str name) /\
      (get_file_name handle' = c_str path ++ SLASH :: c_str name \/
       exists off,
         strchr (c_str path ++ SLASH :: c_str name) SLASH = Some off /\
         get_file_name handle' =
           take off (c_str path ++ SLASH :: c_str name))).
Proof.
  split; [|split; [|split; [|split; [|split; [|split]]]]]; try done.
  - intros Hp Hn Hfit. unfold get_file_handle_size.
    assert (Hsz : sizeof file_handle_t = 4) by done.
    destruct (Z.eqb_spec (Z.of_nat (strlen path)) 0); [lia|].
    destruct (Z.eqb_spec (Z.of_nat (strlen name)) 0); [lia|]. cbn [orb].
    rewrite u64_small by lia. split; [done|].
    unfold name_offset. split.
    + intros [h1 Hset]. apply set_file_name_Some_inv in Hset. lia.
    + intros Hroom. rewrite set_file_name_Some by lia. by eexists.
  - intros Hempty. unfold get_file_handle_size.
    destruct Hempty as [-> | ->]; simpl; [done|].
    by destruct (Z.of_nat (strlen path) =? 0).
  - intros handle1 Hset. by apply set_file_name_get_file_name in Hset as [? _].
  - intros K HK p handle' p' Hrun. unfold create_file in Hrun.
    run_call Hrun as h1 p0 Hset. apply defined_Ret_inv in Hset as [Hset ->].
    apply set_file_name_get_file_name in Hset as (Hname & _ & _).
    unfold get_file_name in *.
    run_call Hrun as [r st] p1 Hstat.
    apply posix_stat_Ret_inv in Hstat
      as (_ & _ & [(-> & Hk & _)|(-> & -> & _)]); simpl in Hrun.
    2:{ (* the file is not there: the name is not touched *)
      destruct (S_ISDIR _); [by do 2 run_step Hrun|].
      apply create_file_open_true in Hrun as (n & k & _ & ->).
      split; [done | by left]. }
    (* the file is there *)
    rewrite Hname in Hk. split; [intros e k Hfail; congruence|].
    run_call Hrun as [ok filename'] p2 Hens.
    destruct ok; simpl in Hrun; [|by do 2 run_step Hrun].
    apply ensure_file_path_true in Hens
      as [->|(off & st1 & k1 & _ & Hoff & Hcut)];
      apply create_file_open_true in Hrun as (n & k & _ & ->);
      [by left|].
    (* the name was cut at its first slash *)
    right. exists off. simpl.
    assert (Hslash : SLASH <> NUL) by done.
    apply (strchr_in_c_str _ _ _ Hslash) in Hoff as [Hoff Htake].
    rewrite Hname in Hoff, Htake. by rewrite Hcut, Htake.
Qed.

(** On the reference file system the cut name is never seen after a
    success: it names a directory there, and the [open] of line 140
    fails. *)
Lemma create_file_name_reference_fs (junk : indeterminate)
    (path name : list ascii) (handle : handle_mem)
    (p : proc RefFS.state) handle' p' :
  create_file junk path name handle p = Ret (true, handle') p' ->
  get_file_name handle' = c_str path ++ SLASH :: c_str name.
Proof.
  intros Hrun. unfold create_file in Hrun.
  run_call Hrun as h1 p0 Hset. apply defined_Ret_inv in Hset as [Hset ->].
  apply set_file_name_get_file_name in Hset as (Hname & _ & _).
  unfold get_file_name in *.
  run_call Hrun as [r st] p1 Hstat.
  apply posix_stat_Ret_inv in Hstat
    as (_ & _ & [(-> & Hk & _)|(-> & -> & _)]); simpl in Hrun.
  2:{ (* the file is not there: the name is not touched *)
    destruct (S_ISDIR _); [by do 2 run_step Hrun|].
    apply create_file_open_true in Hrun as (n & k & _ & ->). done. }
  (* the file is there *)
  run_call Hrun as [ok filename'] p2 Hens.
  destruct ok; simpl in Hrun; [|by do 2 run_step Hrun].
  pose proof (ensure_file_path_grows _ _ _ _ _ Hens) as Hgrow.
  apply ensure_file_path_true in Hens
    as [->|(off & st1 & k1 & _ & Hoff & Hcut)];
    apply create_file_open_true in Hrun as (n & k & Hopen & ->); [done|].
  (* the name was cut to its first component, a directory *)
  exfalso. simpl. apply stat_resolves in Hk as (Hg1 & pl & nd & Hres).
  rewrite (strchr_c_str _ _ Hoff) in Hres.
  apply strchr_Some in Hoff as (_ & Hslash & _).
  apply resolve_first_component in Hres; [|done].
  assert (Hdir : take off (inline h1) = [] \/
                 exists pl', RefFS.resolve (RefFS.fs (kernel p2))
                               (take off (inline h1)) = RefFS.Found pl' RefFS.Dir).
  { destruct Hres as [?|[pl' Hres]]; [by left|right]. exists pl'.
    rewrite resolve_nonempty in * by (intros Hnil; by rewrite Hnil in Hres).
    apply (walk_mono (RefFS.fs (kernel p))); [|done].
    unfold RefFS.grows in *. by etrans. }
  rewrite Hcut in Hopen.
  by destruct (open_directory_refused _ _ _ _ _ Hdir Hopen).
Qed.

(** [db] exists and [db/data] does not: the handle has room and the
    name is [db/data] after [create_file].  When [db/data] exists and
    the [open] of line 140 is answered with a descriptor, [create_file]
    returns true and the name in the handle is [db]. *)
Lemma get_file_name_after_create_file_witness :
  get_file_handle_size (Some (lit "db")) (Some (lit "data")) = 12 /\
  is_Some (set_file_name (lit "db") (lit "data") Examples.fresh_handle) /\
  (exists handle' p',
      Examples.create_absent = Ret (true, handle') p' /\
      get_file_name handle' = lit "db/data") /\
  (exists handle' p',
      Examples.create_cut_name = Ret (true, handle') p' /\
      fd (hdr handle') = 4 /\
      get_file_name handle' = lit "db" /\
      (get_file_name handle' = c_str (lit "db") ++ SLASH :: c_str (lit "data") \/
       exists off,
         strchr (c_str (lit "db") ++ SLASH :: c_str (lit "data")) SLASH
           = Some off /\
         get_file_name handle' =
           take off (c_str (lit "db") ++ SLASH :: c_str (lit "data")))).
Proof.
  destruct (get_file_name_after_create_file Examples.junk (lit "db")
              (lit "data") Examples.fresh_handle)
    as (Hsize & _ & _ & _ & _ & _ & Hcreate).
  destruct Hsize as [Hsize Hroom]; [done | done | reflexivity |].
  split; [exact Hsize|]. split.
  { apply Hroom. rewrite Hsize. vm_compute. discriminate. }
  split.
  - eexists _, _. split; [vm_compute; reflexivity|].
    exact (proj1 (Hcreate RefFS.state RefFS.posix
                    (RefFS.start Examples.empty_db []) _ _
                    ltac:(vm_compute; reflexivity))
             ENOENT _ ltac:(vm_compute; reflexivity)).
  - eexists _, _. split; [vm_compute; reflexivity|].
    split; [reflexivity|]. split; [reflexivity|].
    exact (proj2 (Hcreate Script.state Script.posix
                    (Script.start Examples.cut_name_answers) _ _
                    ltac:(vm_compute; reflexivity))).
Defined.

(** ** Termination *)

Section Fuel.
Context {K : Type} `{!Posix K}.
Implicit Types (p : proc K).

Lemma in_time_bind {A B} (m : M K A) (f : A -> M K B) p :
  m p <> OutOfFuel ->
  (forall a p1, m p = Ret a p1 -> f a p1 <> OutOfFuel) ->
  (m ≫= f) p <> OutOfFuel.
Proof.
  intros Hm Hf. unfold mbind, M_bind.
  destruct (m p) as [a p1| |] eqn:Hrun; [by apply Hf|done..].
Qed.

Lemma finishes_bind {A B} (m : M K A) (f : A -> M K B) :
  finishes m -> (forall a, finishes (f a)) -> finishes (m ≫= f).
Proof. intros Hm Hf p. apply in_time_bind; [apply Hm | intros; apply Hf]. Qed.

Lemma finishes_mret {A} (a : A) : finishes (mret a : M K A).
Proof. by intros p. Qed.

Lemma finishes_defined {A} (o : option A) : finishes (defined o : M K A).
Proof. intros p. unfold defined. by destruct o. Qed.

Lemma finishes_undefined {A} : finishes (undefined : M K A).
Proof. by intros p. Qed.

Lemma finishes_get_errno : finishes (get_errno : M K Z).
Proof. by intros p. Qed.

Lemma finishes_push_error code fmt args :
  finishes (push_error code fmt args : M K unit).
Proof. by intros p. Qed.

Lemma finishes_mark_error : finishes (mark_error : M K unit).
Proof. by intros p. Qed.

Lemma finishes_sys {A} (call : K -> sysret A * K) val failure ev :
  finishes (sys call val failure ev).
Proof.
  intros p. by destruct (sys_total call val failure ev p) as (r & p' & ->).
Qed.

End Fuel.

(** Goes through a function's body, as [evolve_with] does. *)
Ltac finish_with known :=
  repeat first
    [ known
    | simple apply finishes_mret
    | simple apply finishes_defined
    | simple apply finishes_undefined
    | simple apply finishes_get_errno
    | simple apply finishes_push_error
    | simple apply finishes_mark_error
    | simple apply finishes_sys
    | simple apply finishes_bind; [| intros ?]
    | match goal with
      | |- finishes (if ?b then _ else _) => destruct b
      | |- finishes (match ?x with _ => _ end) => destruct x
      end ].

Section Termination.
Context {K : Type} `{!Posix K}.
Implicit Types (p : proc K).

Lemma posix_stat_finishes path st : finishes (posix_stat path st).
Proof. unfold posix_stat. finish_with fail. Qed.

Lemma posix_mkdir_finishes path mode : finishes (posix_mkdir path mode).
Proof. unfold posix_mkdir. finish_with fail. Qed.

Lemma posix_open_finishes path flags mode :
  finishes (posix_open path flags mode).
Proof. unfold posix_open. finish_with fail. Qed.

Lemma posix_fsync_finishes fd : finishes (posix_fsync fd).
Proof. unfold posix_fsync. finish_with fail. Qed.

Lemma posix_close_finishes fd : finishes (posix_close fd).
Proof. unfold posix_close. finish_with fail. Qed.

Lemma fsync_parent_directory_finishes file :
  finishes (fsync_parent_directory file).
Proof.
  unfold fsync_parent_directory.
  finish_with ltac:(first [ simple apply posix_open_finishes
                          | simple apply posix_fsync_finishes
                          | simple apply posix_close_finishes ]).
Qed.

(** The loop moves [cur] to the right at every turn, so fuel for one
    turn per byte left is enough. *)
Lemma ensure_file_path_loop_in_time fuel file cur st p :
  (cur <= length file)%nat -> (length file < fuel + cur)%nat ->
  ensure_file_path_loop fuel file cur st p <> OutOfFuel.
Proof.
  revert file cur st p. induction fuel as [|fuel IH];
    intros file cur st p Hcur Hfuel; [lia|]. simpl.
  apply in_time_bind; [apply finishes_defined|]. intros c p0 _.
  destruct (decide (c = NUL)); [done|].
  destruct (strchr (drop cur file) SLASH) as [off|]; [|done].
  apply in_time_bind; [apply finishes_defined|]. intros file1 p1 Hstore.
  apply defined_Ret_inv in Hstore as [Hstore _].
  apply store_Some_inv in Hstore as [Hlt ->].
  assert (Hnext : forall st' p',
             ensure_file_path_loop fuel (<[(cur + off)%nat := NUL]> file)
               (cur + off + 1) st' p' <> OutOfFuel).
  { intros. apply IH; rewrite length_insert; lia. }
  apply in_time_bind; [apply posix_stat_finishes|]. intros [r st1] p2 _.
  destruct (negb (r =? 0)).
  - destruct (negb (S_ISDIR (st_mode st1))); [|apply Hnext].
    finish_with fail.
  - apply in_time_bind; [apply posix_mkdir_finishes|]. intros r2 p3 _.
    apply in_time_bind; [apply finishes_get_errno|]. intros e p4 _.
    destruct ((r2 =? -1) && negb (e =? EEXIST)); [finish_with fail|].
    apply in_time_bind; [apply fsync_parent_directory_finishes|].
    intros [ok file2] p5 Hsync.
    apply fsync_parent_directory_buffer in Hsync as ->.
    destruct (negb ok); [finish_with fail | apply Hnext].
Qed.

Lemma ensure_file_path_finishes junk file :
  finishes (ensure_file_path junk file).
Proof.
  intros p. unfold ensure_file_path.
  apply in_time_bind; [apply posix_stat_finishes|]. intros [r st] p1 _.
  destruct (negb (r =? 0)).
  - destruct (S_ISDIR _); finish_with fail.
  - apply ensure_file_path_loop_in_time; lia.
Qed.

(** [create_file] returns or has undefined behaviour: the fuel of the
    loop is never what stops it. *)
Lemma create_file_finishes junk path name handle :
  finishes (create_file junk path name handle).
Proof.
  assert (Hopen : forall isNew hd filename,
             finishes (create_file_open isNew hd filename)).
  { intros. unfold create_file_open.
    finish_with ltac:(first [ simple apply posix_open_finishes
                            | simple apply posix_close_finishes
                            | simple apply fsync_parent_directory_finishes ]). }
  unfold create_file.
  finish_with ltac:(first [ simple apply posix_stat_finishes
                          | simple apply ensure_file_path_finishes
                          | simple apply Hopen ]).
Qed.

End Termination.

(** * Further properties of the code *)

(** ** Page counts *)

Section PagingFacts.
Import Paging.

(** X1: for a [uint64_t] [size], [TO_PAGES(size)] is the least number of
    pages, and at least one, whose [PAGE_SIZE] bytes each hold [size]
    bytes together: it is 1 for a size of 0, it covers [size], and no
    smaller count of at least one page does. *)
Theorem TO_PAGES_least_cover (size : Z) :
  0 <= size < 2 ^ 64 ->
  1 <= TO_PAGES size /\
  size <= TO_PAGES size * PAGE_SIZE /\
  (forall n, 1 <= n -> size <= n * PAGE_SIZE -> TO_PAGES size <= n).
Proof.
  intros Hs. unfold TO_PAGES, MAX, PAGE_SIZE.
  pose proof (Z.div_mod size 8192 ltac:(lia)) as Hdm.
  pose proof (Z.mod_pos_bound size 8192 ltac:(lia)) as Hm.
  assert (0 <= size / 8192 < 2 ^ 64 - 1) as Hq.
  { split; [apply Z.div_pos; lia|].
    apply Z.div_lt_upper_bound; lia. }
  rewrite u64_small by (destruct (size mod 8192 =? 0); simpl; lia).
  destruct (Z.eqb_spec (size mod 8192) 0) as [H0|H0]; simpl;
    match goal with |- context [?a >? 1] => destruct (Z.gtb_spec a 1) end;
    repeat split; try lia; intros n Hn1 Hn; nia.
Qed.

Lemma TO_PAGES_least_cover_witness :
  0 <= 8193 < 2 ^ 64 /\ TO_PAGES 8193 = 2 /\
  1 <= TO_PAGES 8193 /\
  8193 <= TO_PAGES 8193 * PAGE_SIZE /\
  (forall n, 1 <= n -> 8193 <= n * PAGE_SIZE -> TO_PAGES 8193 <= n).
Proof.
  assert (H : 0 <= 8193 < 2 ^ 64) by lia.
  split; [exact H|]. split; [reflexivity|].
  exact (TO_PAGES_least_cover 8193 H).
Defined.

End PagingFacts.

(** ** More on the free-space bits *)

Section BitmapMore.
Import Bitmap.

Lemma lxor_pow2_testbit w k n :
  0 <= k -> 0 <= n ->
  Z.testbit (Z.lxor w (2 ^ k)) n =
  if decide (n = k) then negb (Z.testbit w n) else Z.testbit w n.
Proof.
  intros Hk Hn. rewrite Z.lxor_spec, Z.pow2_bits_eqb by done.
  case_decide as Hd.
  - subst. rewrite Z.eqb_refl. by destruct (Z.testbit w k).
  - destruct (Z.eqb_spec k n); [congruence | apply xorb_false_r].
Qed.

Lemma lor_lxor_pow2 w k :
  0 <= k -> Z.testbit w k = false -> Z.lxor (Z.lor w (2 ^ k)) (2 ^ k) = w.
Proof.
  intros Hk Hw. apply Z.bits_inj'. intros n Hn.
  rewrite lxor_pow2_testbit, Z.lor_spec, Z.pow2_bits_eqb by done.
  case_decide as Hd.
  - subst. by rewrite Hw, Z.eqb_refl.
  - destruct (Z.eqb_spec k n); [congruence | apply orb_false_r].
Qed.

Lemma lxor_lor_pow2 w k :
  0 <= k -> Z.testbit w k = true -> Z.lor (Z.lxor w (2 ^ k)) (2 ^ k) = w.
Proof.
  intros Hk Hw. apply Z.bits_inj'. intros n Hn.
  rewrite Z.lor_spec, lxor_pow2_testbit, Z.pow2_bits_eqb by done.
  case_decide as Hd.
  - subst. by rewrite Hw, Z.eqb_refl.
  - destruct (Z.eqb_spec k n); [congruence | apply orb_false_r].
Qed.

(** X2: on a bit that is set, [clear_bit] does what its name says and
    nothing else: afterwards [is_bit_set] answers false at [p] and as
    before at every other position, the buffer has its length, and every
    word but word [p / 64] is as it was. *)
Theorem clear_bit_of_set_bit (buffer : list Z) (p : Z) :
  in_bounds buffer p ->
  is_bit_set buffer p = Some true ->
  exists buffer',
    clear_bit buffer p = Some buffer' /\
    is_bit_set buffer' p = Some false /\
    length buffer' = length buffer /\
    (forall i, i <> word_index p -> buffer' !! i = buffer !! i) /\
    (forall q, 0 <= q -> q <> p -> is_bit_set buffer' q = is_bit_set buffer q).
Proof.
  intros [Hp Hlen] Hset.
  destruct (lookup_lt_is_Some_2 buffer _ Hlen) as [w Hw].
  pose proof (Z.mod_pos_bound p 64 eq_refl) as Hm.
  rewrite (is_bit_set_testbit _ _ _ Hw) in Hset.
  set (w1 := Z.lxor w (bit_mask p)).
  assert (Hw1 : <[word_index p := w1]> buffer !! word_index p = Some w1)
    by by apply list_lookup_insert_eq.
  exists (<[word_index p := w1]> buffer). repeat split.
  - unfold clear_bit. by rewrite Hw.
  - rewrite (is_bit_set_testbit _ _ _ Hw1). f_equal. unfold w1.
    rewrite bit_mask_pow2, lxor_pow2_testbit by lia.
    rewrite decide_True by done. injection Hset as ->. done.
  - apply length_insert.
  - intros i Hi. by apply list_lookup_insert_ne.
  - intros q Hq Hne. pose proof (Z.mod_pos_bound q 64 eq_refl).
    destruct (decide (word_index q = word_index p)) as [Heq|Hi].
    + rewrite (is_bit_set_testbit _ q w1), (is_bit_set_testbit _ q w)
        by (by rewrite Heq).
      f_equal. unfold w1. rewrite bit_mask_pow2, lxor_pow2_testbit by lia.
      case_decide as Hd; [|done].
      exfalso. apply Hne. by apply word_index_inj.
    + unfold is_bit_set. by rewrite list_lookup_insert_ne.
Qed.

Lemma clear_bit_of_set_bit_witness :
  in_bounds [0; 5] 66 /\
  is_bit_set [0; 5] 66 = Some true /\
  exists buffer',
    clear_bit [0; 5] 66 = Some buffer' /\
    is_bit_set buffer' 66 = Some false /\
    length buffer' = length [0; 5] /\
    (forall i, i <> word_index 66 -> buffer' !! i = [0; 5] !! i) /\
    (forall q, 0 <= q -> q <> 66 -> is_bit_set buffer' q = is_bit_set [0; 5] q).
Proof.
  assert (H : in_bounds [0; 5] 66) by (split; [lia | vm_compute; lia]).
  split; [exact H|]. split; [reflexivity|].
  exact (clear_bit_of_set_bit [0; 5] 66 H eq_refl).
Defined.

(** X3: [set_bit] and [clear_bit] undo each other: setting a clear bit
    and then clearing it gives back the buffer, word for word, and so
    does clearing a set bit and then setting it. *)
Theorem set_bit_clear_bit_round_trip (buffer : list Z) (p : Z) (b : bool) :
  in_bounds buffer p ->
  is_bit_set buffer p = Some b ->
  (if b then clear_bit buffer p ≫= (fun buffer' => set_bit buffer' p)
   else set_bit buffer p ≫= (fun buffer' => clear_bit buffer' p))
  = Some buffer.
Proof.
  intros [Hp Hlen] Hset.
  destruct (lookup_lt_is_Some_2 buffer _ Hlen) as [w Hw].
  pose proof (Z.mod_pos_bound p 64 eq_refl) as Hm.
  rewrite (is_bit_set_testbit _ _ _ Hw) in Hset. injection Hset as Hset.
  destruct b; unfold set_bit, clear_bit; rewrite Hw; simpl;
    rewrite list_lookup_insert_eq by done; simpl;
    rewrite list_insert_insert_eq, bit_mask_pow2.
  - rewrite lxor_lor_pow2 by (done || lia). by rewrite list_insert_id.
  - rewrite lor_lxor_pow2 by (done || lia). by rewrite list_insert_id.
Qed.

Lemma set_bit_clear_bit_round_trip_witness :
  in_bounds [0; 5] 66 /\
  is_bit_set [0; 5] 66 = Some true /\
  clear_bit [0; 5] 66 = Some [0; 1] /\
  (clear_bit [0; 5] 66 ≫= (fun buffer' => set_bit buffer' 66)) = Some [0; 5].
Proof.
  assert (H : in_bounds [0; 5] 66) by (split; [lia | vm_compute; lia]).
  split; [exact H|]. split; [reflexivity|]. split; [reflexivity|].
  exact (set_bit_clear_bit_round_trip [0; 5] 66 true H eq_refl).
Defined.

(** X4: [clear_bit] twice at the same position gives back the buffer,
    word for word: a second clearing of a bit sets it again. *)
Theorem clear_bit_twice (buffer : list Z) (p : Z) :
  in_bounds buffer p ->
  (clear_bit buffer p ≫= (fun buffer' => clear_bit buffer' p)) = Some buffer.
Proof.
  intros [Hp Hlen].
  destruct (lookup_lt_is_Some_2 buffer _ Hlen) as [w Hw].
  unfold clear_bit. rewrite Hw. simpl.
  rewrite list_lookup_insert_eq by done. simpl.
  rewrite list_insert_insert_eq, Z.lxor_assoc, Z.lxor_nilpotent, Z.lxor_0_r.
  by rewrite list_insert_id.
Qed.

Lemma clear_bit_twice_witness :
  in_bounds [0; 1] 66 /\
  clear_bit [0; 1] 66 = Some [0; 5] /\
  (clear_bit [0; 1] 66 ≫= (fun buffer' => clear_bit buffer' 66)) = Some [0; 1].
Proof.
  assert (H : in_bounds [0; 1] 66) by (split; [lia | vm_compute; lia]).
  split; [exact H|]. split; [reflexivity|]. exact (clear_bit_twice [0; 1] 66 H).
Defined.

Lemma is_u64_land z : is_u64 z <-> Z.land z (Z.ones 64) = z.
Proof.
  rewrite Z.land_ones by lia. unfold is_u64. split.
  - intros Hz. by apply Z.mod_small.
  - intros <-. apply Z.mod_pos_bound. lia.
Qed.

Lemma is_u64_lor a b : is_u64 a -> is_u64 b -> is_u64 (Z.lor a b).
Proof.
  rewrite !is_u64_land. intros Ha Hb.
  by rewrite Z.land_lor_distr_l, Ha, Hb.
Qed.

Lemma is_u64_lxor a b : is_u64 a -> is_u64 b -> is_u64 (Z.lxor a b).
Proof.
  rewrite !is_u64_land. intros Ha Hb.
  apply Z.bits_inj'. intros n Hn.
  rewrite Z.land_spec, !Z.lxor_spec, <- Ha, <- Hb, !Z.land_spec.
  by destruct (Z.testbit (Z.ones 64) n), (Z.testbit a n), (Z.testbit b n).
Qed.

Lemma is_u64_bit_mask p : is_u64 (bit_mask p).
Proof. unfold bit_mask, u64, is_u64. apply Z.mod_pos_bound. lia. Qed.

(** X5: the words of the buffer stay [uint64_t] values: when every word
    of the buffer is below [2^64], so is every word of the buffer that
    [set_bit] or [clear_bit] leaves, whatever the position. *)
Theorem bit_writes_keep_words (buffer buffer' : list Z) (p : Z) :
  Forall is_u64 buffer ->
  set_bit buffer p = Some buffer' \/ clear_bit buffer p = Some buffer' ->
  Forall is_u64 buffer'.
Proof.
  intros Hall Hrun.
  assert (exists w w', buffer !! word_index p = Some w /\
            buffer' = <[word_index p := w']> buffer /\ is_u64 w')
    as (w & w' & Hw & -> & Hw').
  { pose proof (is_u64_bit_mask p) as Hmask.
    destruct Hrun as [Hrun|Hrun]; unfold set_bit, clear_bit in Hrun;
      destruct (buffer !! word_index p) as [w|] eqn:Hw; simplify_eq/=;
      pose proof (Forall_lookup_1 _ _ _ _ Hall Hw);
      eexists _, _; (split; [done|]); (split; [done|]).
    - by apply is_u64_lor.
    - by apply is_u64_lxor. }
  apply Forall_insert; done.
Qed.

Lemma bit_writes_keep_words_witness :
  Forall is_u64 [0; 2 ^ 64 - 1] /\
  clear_bit [0; 2 ^ 64 - 1] 127 = Some [0; 2 ^ 63 - 1] /\
  Forall is_u64 [0; 2 ^ 63 - 1].
Proof.
  assert (H : Forall is_u64 [0; 2 ^ 64 - 1])
    by (repeat constructor; unfold is_u64; lia).
  split; [exact H|]. split; [reflexivity|].
  exact (bit_writes_keep_words [0; 2 ^ 64 - 1] [0; 2 ^ 63 - 1] 127 H
           (or_intror eq_refl)).
Defined.

End BitmapMore.

(** ** More on the calls of pal.c *)

Section PalMore.
Context {K : Type} `{!Posix K}.
Implicit Types (p : proc K).

(** X6: [close_file] on a handle makes one call, the [close] of the
    handle's descriptor, and returns what that call decides.  It returns
    true and pushes nothing exactly when [close] succeeds; when [close]
    fails it returns false and pushes one error, which carries the error
    number of the call, the name of the file and the descriptor. *)
Theorem close_file_spec (handle : handle_mem) p :
  exists b p',
    close_file (Some handle) p = Ret b p' /\
    kernel p' = (k_close (fd (hdr handle)) (kernel p)).2 /\
    if b then
      (k_close (fd (hdr handle)) (kernel p)).1 = SysOk tt /\
      trace p' = trace p ++ [EvClose (fd (hdr handle)) 0] /\
      errors p' = errors p /\ errno p' = errno p
    else
      (k_close (fd (hdr handle)) (kernel p)).1 = SysErr (errno p') /\
      trace p' = trace p ++ [EvClose (fd (hdr handle)) (-1)] /\
      errors p' =
        errors p ++
        [Pushed (errno p') "Failed to close file %s (%i)"
           [ArgS (get_file_name handle); ArgI (fd (hdr handle))]].
Proof.
  unfold close_file, posix_close, sys, mbind, M_bind, mret, M_ret.
  destruct (k_close _ _) as [[[]|e] k]; simpl.
  - by exists true; eexists.
  - by exists false; eexists.
Qed.

End PalMore.

(** ** More on [create_file] *)

Section CreateFileMore.
Context {K : Type} `{!Posix K}.
Implicit Types (p : proc K).

(** Lines 140-155: a failure leaves [handle->fd] alone; a success stores
    the descriptor of the [open], which is followed by housekeeping
    calls only. *)
Lemma create_file_open_fd isNew hd filename p b handle' p' :
  create_file_open isNew hd filename p = Ret (b, handle') p' ->
  if b then
    exists evs,
      0 <= fd (hdr handle') /\ inline handle' = filename /\
      trace p' =
        trace p ++
        EvOpen (c_str filename) create_flags create_mode (fd (hdr handle'))
        :: evs /\
      forallb housekeeping evs = true
  else hdr handle' = hd.
Proof.
  intros Hrun. unfold create_file_open in Hrun.
  run_call Hrun as fd1 p1 Hopen.
  apply posix_open_Ret_inv in Hopen as (He1 & Ht1 & Hfd).
  destruct (Z.eqb_spec fd1 (-1)) as [->|Hne].
  { by do 3 run_step Hrun. }
  destruct Hfd as [(Hfd & _)|[? _]]; [|done].
  run_call Hrun as [ok filename'] p2 Hsync.
  assert (filename' = filename /\
          exists evs errs,
             trace p2 = trace p1 ++ evs /\ errors p2 = errors p1 ++ errs /\
             forallb housekeeping evs = true) as (-> & evs & errs & Ht2 & He2 & Hh).
  { destruct isNew.
    - split; [by eapply fsync_parent_directory_buffer|].
      by eapply fsync_parent_directory_calls.
    - run_step Hsync. split; [done|]. exists [], []. by rewrite !app_nil_r. }
  destruct ok; simpl in Hrun.
  - run_step Hrun. exists evs. simpl. by chain.
  - run_step Hrun. run_call Hrun as r p4 Hclose.
    run_call Hrun as u p5 Hpush. by run_step Hrun.
Qed.

(** X8: [create_file] writes [handle->fd] only when it succeeds.  A run
    that returns false leaves the descriptor of the handle as it was; a
    run that returns true stores a non-negative descriptor, the one the
    [open] of line 140 returned for the name now in the handle, and that
    [open] is the only call of the run that is not housekeeping. *)
Theorem create_file_handle_fd (junk : indeterminate)
    (path name : list ascii) (handle : handle_mem) p b handle' p' :
  create_file junk path name handle p = Ret (b, handle') p' ->
  if b then
    exists evs1 evs2,
      0 <= fd (hdr handle') /\
      trace p' =
        trace p ++ evs1 ++
        EvOpen (get_file_name handle') create_flags create_mode
          (fd (hdr handle')) :: evs2 /\
      forallb housekeeping evs1 = true /\ forallb housekeeping evs2 = true
  else hdr handle' = hdr handle.
Proof.
  intros Hrun. unfold create_file in Hrun.
  run_call Hrun as h1 p0 Hset. apply defined_Ret_inv in Hset as [Hset ->].
  apply set_file_name_get_file_name in Hset as (_ & Hhdr & _).
  run_call Hrun as [r st] p1 Hstat.
  apply posix_stat_Ret_inv in Hstat as (He1 & Ht1 & _).
  assert (b = false /\ hdr handle' = hdr handle \/
          exists filename p2 evs1,
             create_file_open (r =? 0) (hdr h1) filename p2 = Ret (b, handle') p' /\
             trace p2 = trace p ++ evs1 /\
             forallb housekeeping evs1 = true) as [[-> ?]|Hopen]; [|done|].
  { destruct (r =? 0) eqn:Hnew.
    - run_call Hrun as [ok filename] p2 Hens.
      apply ensure_file_path_calls in Hens as (evs2 & errs2 & Ht2 & He2 & Hh2).
      destruct ok; simpl in Hrun.
      + right. exists filename, p2, (EvStat (c_str (inline h1)) r :: evs2).
        split; [done|]. by chain.
      + do 2 run_step Hrun. by left.
    - destruct (S_ISDIR _).
      + do 2 run_step Hrun. by left.
      + right. by exists (inline h1), p1, [EvStat (c_str (inline h1)) r]. }
  destruct Hopen as (filename & p2 & evs1 & Hopen & Ht2 & Hh1).
  apply create_file_open_fd in Hopen. destruct b; [|congruence].
  destruct Hopen as (evs2 & Hfd & Hin & Ht & Hh2).
  exists evs1, evs2. unfold get_file_name. rewrite Hin, Ht, Ht2, <- app_assoc.
  done.
Qed.

(** X9: the result of [create_file] for a file that is not there depends
    on memory it never wrote.  When [stat] fails, [st] is still
    uninitialised, and line 135 tests it all the same: with contents
    that look like a directory's, [create_file] makes no other call,
    pushes [EISDIR] and returns false, on any kernel. *)
Theorem create_file_reads_uninitialised_st (junk : indeterminate)
    (path name : list ascii) (handle handle1 : handle_mem) p e k :
  set_file_name path name handle = Some handle1 ->
  k_stat (c_str path ++ SLASH :: c_str name) (kernel p) = (SysErr e, k) ->
  S_ISDIR (st_mode (junk_create_file junk)) = true ->
  exists p',
    create_file junk path name handle p = Ret (false, handle1) p' /\
    kernel p' = k /\
    trace p' = trace p ++ [EvStat (c_str path ++ SLASH :: c_str name) (-1)] /\
    errors p' =
      errors p ++
      [Pushed EISDIR "The path '%s' is a directory, expected a file"
         [ArgS (c_str path)]].
Proof.
  intros Hset Hk Hjunk.
  pose proof (set_file_name_get_file_name _ _ _ _ Hset) as (Hname & _ & _).
  unfold get_file_name in Hname.
  unfold create_file, posix_stat, sys, defined, push_error,
    mbind, M_bind, mret, M_ret.
  rewrite Hset, Hname, Hk. cbn [negb fst snd kernel]. 
  change (-1 =? 0) with false. cbv iota. rewrite Hjunk.
  eexists. split; [reflexivity|]. done.
Qed.

End CreateFileMore.

(** [db] exists and [db/data] does not; the run that succeeds on zeroed
    memory (the example of C1) fails when [st] happens to look like a
    directory's. *)
Lemma create_file_reads_uninitialised_st_witness :
  exists handle1 p',
    set_file_name (lit "db") (lit "data") Examples.fresh_handle = Some handle1 /\
    (exists h q, Examples.create_absent = Ret (true, h) q) /\
    create_file Examples.dir_junk (lit "db") (lit "data") Examples.fresh_handle
      (RefFS.start Examples.empty_db []) = Ret (false, handle1) p' /\
    trace p' = [EvStat (lit "db/data") (-1)] /\
    errors p' =
      [Pushed EISDIR "The path '%s' is a directory, expected a file"
         [ArgS (lit "db")]].
Proof.
  destruct (@create_file_reads_uninitialised_st RefFS.state RefFS.posix
              Examples.dir_junk (lit "db") (lit "data") Examples.fresh_handle
              _ (RefFS.start Examples.empty_db []) ENOENT _
              ltac:(vm_compute; reflexivity) ltac:(vm_compute; reflexivity)
              ltac:(reflexivity))
    as (p' & Hrun & _ & Ht & He).
  eexists _, p'. split; [vm_compute; reflexivity|].
  split; [eexists _, _; vm_compute; reflexivity|].
  split; [exact Hrun|]. split; [exact Ht | exact He].
Defined.

(** The run of the example of C1 stores descriptor 3, that of its
    [open]. *)
Lemma create_file_handle_fd_witness :
  exists handle' p',
    Examples.create_absent = Ret (true, handle') p' /\
    fd (hdr Examples.fresh_handle) = -1 /\ fd (hdr handle') = 3 /\
    exists evs1 evs2,
      0 <= fd (hdr handle') /\
      trace p' =
        trace (RefFS.start Examples.empty_db []) ++ evs1 ++
        EvOpen (get_file_name handle') create_flags create_mode
          (fd (hdr handle')) :: evs2 /\
      forallb housekeeping evs1 = true /\ forallb housekeeping evs2 = true.
Proof.
  eexists _, _. split; [vm_compute; reflexivity|].
  split; [reflexivity|]. split; [reflexivity|].
  exact (@create_file_handle_fd RefFS.state RefFS.posix Examples.junk
           (lit "db") (lit "data") Examples.fresh_handle
           (RefFS.start Examples.empty_db []) true _ _
           ltac:(vm_compute; reflexivity)).
Defined.

(** ** [create_file] on the reference file system *)

(** When the first [stat] of [ensure_file_path] succeeds on a name with
    a slash, a run that returns true leaves the name cut at its first
    slash. *)
Lemma ensure_file_path_cut {K : Type} `{!Posix K} junk file (p : proc K)
    file' p' off st k :
  k_stat (c_str file) (kernel p) = (SysOk st, k) ->
  strchr file SLASH = Some off ->
  ensure_file_path junk file p = Ret (true, file') p' ->
  c_str file' = take off file.
Proof.
  intros Hk Hoff Hrun. unfold ensure_file_path in Hrun.
  run_call Hrun as [r st0] p1 Hstat.
  apply posix_stat_Ret_inv in Hstat as (_ & _ & [(-> & _ & _)|(-> & -> & Hk')]);
    [|congruence].
  simpl in Hrun.
  run_step Hrun. rename x into c. destruct (decide (c = NUL)); [done|].
  rewrite drop_0, Hoff in Hrun.
  apply strchr_Some in Hoff as (Hs & _ & Hn).
  run_step Hrun. apply store_Some_inv in Hdef0 as [Hlt ->]. simpl in *.
  set (file1 := <[off := NUL]> file) in *.
  assert (Hstr1 : c_str file1 = take off file) by by apply c_str_insert_nul.
  assert (Hj1 : file1 !! off = Some NUL) by by apply list_lookup_insert_eq.
  run_call Hrun as [r st1] p2 Hstat.
  destruct (negb (r =? 0)).
  - destruct (negb (S_ISDIR (st_mode st1))).
    + run_step Hrun. run_step Hrun. by run_step Hrun.
    + rewrite <- Hstr1.
      apply (ensure_file_path_loop_buffer _ _ _ _ _ _ _ _ _ Hj1) in Hrun;
        [done|lia].
  - run_call Hrun as r2 p3 Hmkdir. run_step Hrun.
    destruct ((r2 =? -1) && negb (errno p3 =? EEXIST)).
    + run_step Hrun. run_step Hrun. by run_step Hrun.
    + run_call Hrun as [ok1 file2] p4 Hsync.
      apply fsync_parent_directory_buffer in Hsync as ->.
      destruct (negb ok1).
      * run_step Hrun. run_step Hrun. by run_step Hrun.
      * rewrite <- Hstr1.
        apply (ensure_file_path_loop_buffer _ _ _ _ _ _ _ _ _ Hj1) in Hrun;
          [done|lia].
Qed.

Lemma strchr_app_slash a b :
  NUL ∉ a -> is_Some (strchr (a ++ SLASH :: b) SLASH).
Proof.
  induction a as [|c a IH]; intros Hn; cbn [app strchr].
  - rewrite decide_True by done. by eexists.
  - apply not_elem_of_cons in Hn as [Hc Hn].
    destruct (decide (c = SLASH)); [by eexists|].
    rewrite decide_False by done.
    destruct (IH Hn) as [i ->]. by eexists.
Qed.

Section RefFSMore.
Import RefFS.
Implicit Types (k : state) (p : proc state).

(** With an empty fault plan a call is the call of the file system. *)
Lemma faulty_no_faults {A} (call : state -> sysret A * state) k :
  faults k = [] -> faulty call k = call k.
Proof. destruct k. simpl. intros ->. reflexivity. Qed.

(** X10: on the reference file system, with no failure injected,
    [create_file] never succeeds on a file that is there (nor on a
    directory): [isNew] is then true, [ensure_file_path] cuts the name at
    its first slash, and the [open] of line 140 is of the directory
    before that slash, for writing.  So no run returns true. *)
Theorem create_file_of_present_file (junk : indeterminate)
    (path name : list ascii) (handle : handle_mem) p pl n :
  faults (kernel p) = [] ->
  resolve (fs (kernel p)) (c_str path ++ SLASH :: c_str name) = Found pl n ->
  forall handle' p',
    create_file junk path name handle p <> Ret (true, handle') p'.
Proof.
  intros Hplan Hres handle' p' Hrun. unfold create_file in Hrun.
  run_call Hrun as h1 p0 Hset. apply defined_Ret_inv in Hset as [Hset ->].
  pose proof (set_file_name_Some_inv _ _ _ _ Hset) as Hlen.
  pose proof (set_file_name_get_file_name _ _ _ _ Hset) as (Hname & _ & _).
  rewrite set_file_name_Some in Hset by done. injection Hset as Hh1.
  destruct (strchr_app_slash (c_str path)
              (c_str name ++ NUL ::
               drop (strlen path + 1 + strlen name + 1) (inline handle))
              (c_str_nul_free path)) as [off Hoff].
  assert (Hoff1 : strchr (inline h1) SLASH = Some off) by by rewrite <- Hh1.
  clear Hoff Hh1. unfold get_file_name in Hname.
  assert (Hstat0 : forall k, faults k = [] -> fs k = fs (kernel p) ->
            k_stat (c_str (inline h1)) k = (SysOk (stat_of n), k)).
  { intros k Hf Hfs. simpl. rewrite faulty_no_faults by done.
    unfold do_stat. by rewrite Hfs, Hname, Hres. }
  run_call Hrun as [r st] p1 Hstat.
  apply posix_stat_Ret_inv in Hstat
    as (_ & _ & [(-> & Hk & _)|(-> & -> & Hk)]);
    rewrite Hstat0 in Hk by done; [|done].
  injection Hk as _ Hp1. simpl in Hrun.
  run_call Hrun as [ok filename'] p2 Hens.
  destruct ok; simpl in Hrun; [|by do 2 run_step Hrun].
  pose proof (ensure_file_path_grows _ _ _ _ _ Hens) as Hgrow.
  eapply ensure_file_path_cut in Hens as Hcut;
    [|rewrite <- Hp1; by apply Hstat0|done].
  apply create_file_open_true in Hrun as (m & k & Hopen & _).
  rewrite Hcut in Hopen.
  assert (Hres1 : resolve (fs (kernel p)) (c_str (inline h1)) = Found pl n)
    by by rewrite Hname.
  rewrite (strchr_c_str _ _ Hoff1) in Hres1.
  apply strchr_Some in Hoff1 as (_ & Hslash & _).
  apply resolve_first_component in Hres1; [|done].
  assert (Hdir : take off (inline h1) = [] \/
                 exists pl', resolve (fs (kernel p2))
                               (take off (inline h1)) = Found pl' Dir).
  { destruct Hres1 as [?|[pl' Hres1]]; [by left|right]. exists pl'.
    rewrite resolve_nonempty in * by (intros Hnil; by rewrite Hnil in Hres1).
    apply (walk_mono (fs (kernel p))); [|done].
    rewrite Hp1. exact Hgrow. }
  by destruct (open_directory_refused _ _ _ _ _ Hdir Hopen).
Qed.

End RefFSMore.

(** [db/data] exists: [create_file("db", "data", handle)] returns false
    after its [open] of [db] failed with [EISDIR]. *)
Lemma create_file_of_present_file_witness :
  (exists handle' p',
      Examples.create_present = Ret (false, handle') p' /\
      last (trace p') = Some (EvOpen (lit "db") create_flags create_mode (-1)) /\
      errno p' = EISDIR) /\
  forall handle' p', Examples.create_present <> Ret (true, handle') p'.
Proof.
  split.
  - eexists _, _. split; [vm_compute; reflexivity|].
    split; reflexivity.
  - exact (create_file_of_present_file Examples.junk (lit "db") (lit "data")
             Examples.fresh_handle (RefFS.start Examples.db_with_data [])
             [lit "db"; lit "data"] (RefFS.File 10)
             ltac:(reflexivity) ltac:(vm_compute; reflexivity)).
Defined.

Section RefFSLife.
Import RefFS.
Implicit Types (k : state) (p : proc state).

(** X11: on the reference file system, with no failure injected, for a
    name that is missing from a directory that is there, with room for
    it in the handle and an [st] that does not look like a directory's:
    [create_file] returns true and pushes no error; the handle holds the
    descriptor the kernel gave out and the name [path/name]; the tree has
    one more node, an empty file under that name; then [get_file_size]
    yields 0, and [close_file] succeeds and leaves the descriptors as
    they were before [create_file]. *)
Theorem create_file_new_file (junk : indeterminate)
    (path name : list ascii) (handle : handle_mem) p parent x :
  faults (kernel p) = [] ->
  fds (kernel p) !! next_fd (kernel p) = None ->
  resolve (fs (kernel p)) (c_str path ++ SLASH :: c_str name)
    = Missing parent x ->
  S_ISDIR (st_mode (junk_create_file junk)) = false ->
  (strlen path + 1 + strlen name + 1 <= length (inline handle))%nat ->
  exists handle' p',
    create_file junk path name handle p = Ret (true, handle') p' /\
    errors p' = errors p /\
    fd (hdr handle') = Z.of_N (next_fd (kernel p)) /\
    get_file_name handle' = c_str path ++ SLASH :: c_str name /\
    fs (kernel p') = <[parent ++ [x] := File 0]> (fs (kernel p)) /\
    (forall size, exists q,
        get_file_size junk handle' size p' = Ret (true, 0) q /\
        errors q = errors p) /\
    (exists q,
        close_file (Some handle') p' = Ret true q /\
        errors q = errors p /\
        fs (kernel q) = fs (kernel p') /\ fds (kernel q) = fds (kernel p)).
Proof.
  intros Hplan Hfree Hres Hjunk Hroom.
  pose proof (set_file_name_Some _ _ _ Hroom) as Hset.
  pose proof (set_file_name_get_file_name _ _ _ _ Hset) as (Hname & _ & _).
  unfold get_file_name in Hname. simpl in Hname.
  destruct p as [[tree open next plan] e errs tr]. simpl in *. subst plan.
  set (h1 := Build_handle_mem _ _) in *.
  eexists _, _. split.
  { unfold create_file, create_file_open, posix_stat, posix_open, sys, defined,
      mbind, M_bind, mret, M_ret.
    rewrite Hset. cbn [inline h1 kernel k_stat k_open posix].
    rewrite Hname. unfold faulty at 1. cbn [faults fs fds next_fd tail].
    unfold do_stat. cbn [fs]. rewrite Hres. cbn [negb fst snd kernel].
    change (-1 =? 0) with false. cbv iota. rewrite Hjunk.
    cbn [kernel k_open posix]. unfold faulty. cbn [faults fs fds next_fd tail].
    unfold do_open. cbn [fs]. rewrite Hres.
    change (Z.land (Z.lor (Z.lor O_CLOEXEC O_CREAT) O_RDWR) O_CREAT =? 0)
      with false. cbv iota. unfold open_at. cbn [next_fd fds faults].
    destruct (Z.eqb_spec (Z.of_N next) (-1)) as [Hneg|_]; [lia|].
    reflexivity. }
  cbn [errors hdr fd kernel fs]. split; [done|]. split; [done|].
  split; [exact Hname|]. split; [done|].
  assert (Hlook : descriptor
            {| fs := <[parent ++ [x] := File 0]> tree;
               fds := <[next := parent ++ [x]]> open;
               next_fd := N.succ next; faults := [] |} (Z.of_N next)
          = Some (parent ++ [x])).
  { unfold descriptor. destruct (Z.ltb_spec (Z.of_N next) 0); [lia|].
    cbn [fds]. rewrite N2Z.id. apply lookup_insert_eq. }
  assert (Hnode : node_at (<[parent ++ [x] := File 0]> tree) (parent ++ [x])
          = Some (File 0)).
  { unfold node_at. destruct (parent ++ [x]) eqn:Hpl.
    - by destruct parent.
    - apply lookup_insert_eq. }
  split.
  - intros size. eexists. split.
    + unfold get_file_size, posix_fstat, sys, mbind, M_bind, mret, M_ret.
      cbn [kernel k_fstat posix hdr fd]. unfold faulty.
      cbn [faults fs fds next_fd tail]. unfold do_fstat. rewrite Hlook.
      cbn [mbind option_bind fs]. rewrite Hnode. reflexivity.
    + reflexivity.
  - eexists. split.
    + unfold close_file, posix_close, sys, mbind, M_bind, mret, M_ret.
      cbn [kernel k_close posix hdr fd]. unfold faulty.
      cbn [faults fs fds next_fd tail]. unfold do_close. rewrite Hlook.
      reflexivity.
    + cbn [errors kernel fs fds]. split; [done|]. split; [done|].
      rewrite N2Z.id. rewrite delete_insert_eq. by apply delete_id.
Qed.

End RefFSLife.

(** [db] exists and is empty: [create_file("db", "data", handle)] makes
    the file [db/data] and hands out descriptor 3. *)
Lemma create_file_new_file_witness :
  RefFS.resolve Examples.empty_db (lit "db/data")
    = RefFS.Missing [lit "db"] (lit "data") /\
  exists handle' p',
    Examples.create_absent = Ret (true, handle') p' /\
    errors p' = [] /\
    fd (hdr handle') = 3 /\
    get_file_name handle' = lit "db/data" /\
    RefFS.fs (kernel p') =
      <[ [lit "db"; lit "data"] := RefFS.File 0 ]> Examples.empty_db /\
    (forall size, exists q,
        get_file_size Examples.junk handle' size p' = Ret (true, 0) q /\
        errors q = []) /\
    (exists q,
        close_file (Some handle') p' = Ret true q /\
        errors q = [] /\
        RefFS.fs (kernel q) = RefFS.fs (kernel p') /\
        RefFS.fds (kernel q) = ∅).
Proof.
  split; [vm_compute; reflexivity|].
  exact (create_file_new_file Examples.junk (lit "db") (lit "data")
           Examples.fresh_handle (RefFS.start Examples.empty_db [])
           [lit "db"] (lit "data")
           ltac:(reflexivity) ltac:(reflexivity)
           ltac:(vm_compute; reflexivity) ltac:(reflexivity)
           ltac:(vm_compute; lia)).
Defined.

(** ** The directories [ensure_file_path] makes *)

Section Mkdirs.
Context {K : Type} `{!Posix K}.
Implicit Types (p : proc K).

Lemma mkdirs_only_at_refl c p p' : trace p' = trace p -> mkdirs_only_at c p p'.
Proof.
  intros Ht. exists []. rewrite app_nil_r. split; [done|].
  intros q mode r Hin. by apply elem_of_nil in Hin.
Qed.

Lemma mkdirs_only_at_trans c p1 p2 p3 :
  mkdirs_only_at c p1 p2 -> mkdirs_only_at c p2 p3 -> mkdirs_only_at c p1 p3.
Proof.
  intros (evs1 & Ht1 & H1) (evs2 & Ht2 & H2). exists (evs1 ++ evs2).
  split; [by rewrite Ht2, Ht1, app_assoc|].
  intros q mode r Hin. apply elem_of_app in Hin as [Hin|Hin]; eauto.
Qed.

Lemma mkdirs_only_at_event c p p' ev :
  trace p' = trace p ++ [ev] ->
  (forall q mode r, ev = EvMkdir q mode r -> q = c /\ mode = S_IRWXU) ->
  mkdirs_only_at c p p'.
Proof.
  intros Ht Hev. exists [ev]. split; [done|].
  intros q mode r Hin. apply list_elem_of_singleton in Hin. eauto.
Qed.

Lemma fsync_parent_directory_mkdirs c file p r p' :
  fsync_parent_directory file p = Ret r p' -> mkdirs_only_at c p p'.
Proof.
  intros Hrun. destruct r as [ok file'].
  unfold fsync_parent_directory in Hrun.
  run_call Hrun as [fd0 file1] p1 Hopen.
  assert (mkdirs_only_at c p p1) as H1.
  { destruct (strrchr file SLASH) as [i|].
    - run_step Hopen. run_call Hopen as fd1 p2 Hcall.
      apply posix_open_Ret_inv in Hcall as (? & ? & _).
      do 2 run_step Hopen. by eapply mkdirs_only_at_event.
    - run_call Hopen as fd1 p2 Hcall.
      apply posix_open_Ret_inv in Hcall as (? & ? & _).
      run_step Hopen. by eapply mkdirs_only_at_event. }
  eapply mkdirs_only_at_trans; [exact H1|].
  destruct (fd0 =? -1).
  - do 3 run_step Hrun. by apply mkdirs_only_at_refl.
  - run_call Hrun as r1 p2 Hsync.
    apply posix_fsync_Ret_inv in Hsync as (_ & Ht2 & _).
    run_call Hrun as res1 p3 Hres1. run_call Hrun as r2 p4 Hclose.
    apply posix_close_Ret_inv in Hclose as (_ & Ht4 & _).
    run_call Hrun as res2 p5 Hres2. run_step Hrun.
    eapply mkdirs_only_at_trans;
      [eapply mkdirs_only_at_event; [exact Ht2 | done]|].
    eapply (mkdirs_only_at_trans _ _ p3).
    { destruct (negb (r1 =? 0)); repeat (run_step Hres1);
        by apply mkdirs_only_at_refl. }
    eapply mkdirs_only_at_trans;
      [eapply mkdirs_only_at_event; [exact Ht4 | done]|].
    destruct (negb (r2 =? 0)); repeat (run_step Hres2);
      by apply mkdirs_only_at_refl.
Qed.

Lemma ensure_file_path_loop_mkdirs fuel file cur st p r p' j :
  file !! j = Some NUL -> (j < cur)%nat ->
  ensure_file_path_loop fuel file cur st p = Ret r p' ->
  mkdirs_only_at (c_str file) p p'.
Proof.
  revert file cur st p. induction fuel as [|fuel IH];
    intros file cur st p Hj Hcur Hrun; simpl in Hrun; [done|].
  run_step Hrun. rename x into c. destruct (decide (c = NUL)); [done|].
  destruct (strchr (drop cur file) SLASH) as [off|] eqn:Hoff;
    [|run_step Hrun; by apply mkdirs_only_at_refl].
  run_step Hrun. apply store_Some_inv in Hdef0 as [Hlt ->].
  set (file1 := <[(cur + off)%nat := NUL]> file) in *.
  assert (Hstr1 : c_str file1 = c_str file)
    by (apply (c_str_insert_after _ _ j); [done|lia]).
  assert (Hj1 : file1 !! j = Some NUL)
    by (unfold file1; rewrite list_lookup_insert_ne by lia; done).
  rewrite <- Hstr1.
  run_call Hrun as [r0 st1] p1 Hstat.
  apply posix_stat_Ret_inv in Hstat as (_ & Ht1 & _).
  eapply mkdirs_only_at_trans;
    [eapply mkdirs_only_at_event; [exact Ht1 | done]|].
  destruct (negb (r0 =? 0)).
  - destruct (negb (S_ISDIR (st_mode st1))).
    + run_step Hrun. run_step Hrun. run_step Hrun.
      by apply mkdirs_only_at_refl.
    + apply (IH _ _ _ _ Hj1) in Hrun; [done|lia].
  - run_call Hrun as r2 p2 Hmkdir.
    apply posix_mkdir_Ret_inv in Hmkdir as (_ & Ht2 & _).
    eapply mkdirs_only_at_trans.
    { eapply mkdirs_only_at_event; [exact Ht2|]. by intros ??? [= <- <- <-]. }
    run_step Hrun.
    destruct ((r2 =? -1) && negb (errno p2 =? EEXIST)).
    + run_step Hrun. run_step Hrun. run_step Hrun.
      by apply mkdirs_only_at_refl.
    + run_call Hrun as [ok1 file2] p3 Hsync.
      pose proof (fsync_parent_directory_buffer _ _ _ _ _ Hsync) as ->.
      apply (fsync_parent_directory_mkdirs (c_str file1)) in Hsync.
      eapply mkdirs_only_at_trans; [exact Hsync|].
      destruct (negb ok1).
      * run_step Hrun. run_step Hrun. run_step Hrun.
        by apply mkdirs_only_at_refl.
      * apply (IH _ _ _ _ Hj1) in Hrun; [done|lia].
Qed.

(** X12: [ensure_file_path] makes directories for the first component
    of the name only.  Line 96 cuts the name at its first slash and no
    path of the loop that goes on puts the slash back, so every [mkdir]
    of a run, however many slashes the name has, is of the bytes before
    the first one: a directory below the first is never made. *)
Theorem ensure_file_path_first_component (junk : indeterminate)
    (file : list ascii) p r p' off :
  strchr file SLASH = Some off ->
  ensure_file_path junk file p = Ret r p' ->
  mkdirs_only_at (take off file) p p'.
Proof.
  intros Hoff Hrun. unfold ensure_file_path in Hrun.
  run_call Hrun as [r0 st] p1 Hstat.
  apply posix_stat_Ret_inv in Hstat as (_ & Ht1 & _).
  eapply mkdirs_only_at_trans;
    [eapply mkdirs_only_at_event; [exact Ht1 | done]|].
  destruct (negb (r0 =? 0)).
  { destruct (S_ISDIR _); repeat (run_step Hrun);
      by apply mkdirs_only_at_refl. }
  assert (Hloop : ensure_file_path_loop (S (length file)) file 0 st p1
                  = Ret r p') by exact Hrun.
  clear Hrun. cbn [ensure_file_path_loop] in Hloop.
  run_step Hloop. rename x into c. destruct (decide (c = NUL)); [done|].
  rewrite drop_0, Hoff in Hloop.
  apply strchr_Some in Hoff as (Hs & _ & Hn).
  run_step Hloop. apply store_Some_inv in Hdef0 as [Hlt ->]. simpl in *.
  set (file1 := <[off := NUL]> file) in *.
  assert (Hstr1 : c_str file1 = take off file) by by apply c_str_insert_nul.
  assert (Hj1 : file1 !! off = Some NUL) by by apply list_lookup_insert_eq.
  rewrite <- Hstr1.
  run_call Hloop as [r1 st1] p2 Hstat.
  apply posix_stat_Ret_inv in Hstat as (_ & Ht2 & _).
  eapply mkdirs_only_at_trans;
    [eapply mkdirs_only_at_event; [exact Ht2 | done]|].
  destruct (negb (r1 =? 0)).
  - destruct (negb (S_ISDIR (st_mode st1))).
    + run_step Hloop. run_step Hloop. run_step Hloop.
      by apply mkdirs_only_at_refl.
    + apply (ensure_file_path_loop_mkdirs _ _ _ _ _ _ _ _ Hj1) in Hloop;
        [done|lia].
  - run_call Hloop as r2 p3 Hmkdir.
    apply posix_mkdir_Ret_inv in Hmkdir as (_ & Ht3 & _).
    eapply mkdirs_only_at_trans.
    { eapply mkdirs_only_at_event; [exact Ht3|]. by intros ??? [= <- <- <-]. }
    run_step Hloop.
    destruct ((r2 =? -1) && negb (errno p3 =? EEXIST)).
    + run_step Hloop. run_step Hloop. run_step Hloop.
      by apply mkdirs_only_at_refl.
    + run_call Hloop as [ok1 file2] p4 Hsync.
      pose proof (fsync_parent_directory_buffer _ _ _ _ _ Hsync) as ->.
      apply (fsync_parent_directory_mkdirs (c_str file1)) in Hsync.
      eapply mkdirs_only_at_trans; [exact Hsync|].
      destruct (negb ok1).
      * run_step Hloop. run_step Hloop. run_step Hloop.
        by apply mkdirs_only_at_refl.
      * apply (ensure_file_path_loop_mkdirs _ _ _ _ _ _ _ _ Hj1) in Hloop;
          [done|lia].
Qed.

End Mkdirs.

(** [db/data] exists: the one [mkdir] is of [db], and the buffer ends up
    cut to [db]. *)
Lemma ensure_file_path_first_component_witness :
  strchr (lit "db/data" ++ [NUL]) SLASH = Some 2%nat /\
  exists p',
    Examples.ensure_present
      = Ret (true, lit "db" ++ NUL :: lit "data" ++ [NUL]) p' /\
    trace p' =
      [EvStat (lit "db/data") 0; EvStat (lit "db") 0;
       EvMkdir (lit "db") S_IRWXU (-1);
       EvOpen (lit ".") O_RDONLY 0 3; EvFsync 3 0; EvClose 3 0] /\
    mkdirs_only_at (take 2 (lit "db/data" ++ [NUL]))
      (RefFS.start Examples.db_with_data []) p'.
Proof.
  split; [reflexivity|].
  eexists. split; [vm_compute; reflexivity|]. split; [reflexivity|].
  exact (@ensure_file_path_first_component RefFS.state RefFS.posix
           Examples.junk (lit "db/data" ++ [NUL])
           (RefFS.start Examples.db_with_data []) _ _ 2%nat
           ltac:(reflexivity) ltac:(vm_compute; reflexivity)).
Defined.

(** ** Unmapping and growing a file *)

Section MemFacts.
Context {K : Type} `{!PosixMem K}.
Implicit Types (p : proc K).

(** X13: [unmap_file] makes one call, [munmap]; it returns true and
    pushes nothing when that succeeds.  When it fails, [unmap_file]
    returns false and pushes one error, whose code is [EINVAL] whatever
    [errno] says. *)
Theorem unmap_file_spec (address size : Z) p :
  exists b p',
    unmap_file address size p = Ret b p' /\
    kernel p' = (k_munmap address size (kernel p)).2 /\
    trace p' = trace p /\
    if b then
      (k_munmap address size (kernel p)).1 = SysOk tt /\
      errors p' = errors p /\ errno p' = errno p
    else
      (k_munmap address size (kernel p)).1 = SysErr (errno p') /\
      errors p' = errors p ++ [Pushed EINVAL "Unable to unmap!" []].
Proof.
  unfold unmap_file, posix_munmap, sys_quiet, push_error,
    mbind, M_bind, mret, M_ret.
  destruct (k_munmap _ _ _) as [[[]|e] k]; simpl.
  - by exists true; eexists.
  - by exists false; eexists.
Qed.

Lemma int64_small z : 0 <= z < 2 ^ 63 -> int64 z = z.
Proof. intros Hz. unfold int64. rewrite Z.mod_small; lia. Qed.

Lemma int64_large z : 2 ^ 63 <= z < 2 ^ 64 -> int64 z = z - 2 ^ 64.
Proof.
  intros Hz. unfold int64.
  replace (z + 2 ^ 63) with (z - 2 ^ 63 + 1 * 2 ^ 64) by lia.
  rewrite Z.mod_add by lia. rewrite Z.mod_small; lia.
Qed.

(** X14: [ensure_file_minimum_size] makes one call, [fallocate] on the
    handle's descriptor with mode 0 and offset 0.  The length it passes
    is [minimum_size] converted to [int64_t]: the size itself below
    [2^63], and a negative number from there on.  It returns true and
    pushes nothing when the call succeeds, and otherwise returns false
    and pushes one error, which carries [errno]. *)
Theorem ensure_file_minimum_size_spec (handle : handle_mem)
    (minimum_size : Z) p :
  0 <= minimum_size < 2 ^ 64 ->
  exists len b p',
    len = (if minimum_size <? 2 ^ 63 then minimum_size
           else minimum_size - 2 ^ 64) /\
    ensure_file_minimum_size handle minimum_size p = Ret b p' /\
    kernel p' = (k_fallocate (fd (hdr handle)) 0 0 len (kernel p)).2 /\
    trace p' = trace p /\
    if b then
      (k_fallocate (fd (hdr handle)) 0 0 len (kernel p)).1 = SysOk tt /\
      errors p' = errors p /\ errno p' = errno p
    else
      (k_fallocate (fd (hdr handle)) 0 0 len (kernel p)).1
        = SysErr (errno p') /\
      errors p' =
        errors p ++
        [Pushed (errno p') "Unable to extend file to size %s to %lu"
           [ArgS (get_file_name handle); ArgI minimum_size]].
Proof.
  intros Hsize.
  exists (if minimum_size <? 2 ^ 63 then minimum_size else minimum_size - 2 ^ 64).
  assert (Hlen : int64 minimum_size =
                 if minimum_size <? 2 ^ 63 then minimum_size
                 else minimum_size - 2 ^ 64).
  { destruct (Z.ltb_spec minimum_size (2 ^ 63));
      [apply int64_small | apply int64_large]; lia. }
  unfold ensure_file_minimum_size, posix_fallocate, sys_quiet, push_error,
    get_errno, mbind, M_bind, mret, M_ret.
  rewrite Hlen.
  destruct (k_fallocate _ _ _ _ _) as [[[]|e] k]; simpl.
  - by exists true; eexists.
  - by exists false; eexists.
Qed.

End MemFacts.

(** Asked for [2^63] bytes, [ensure_file_minimum_size] passes the
    length [-2^63]; the call is refused with [EINVAL]. *)
Lemma ensure_file_minimum_size_spec_witness :
  0 <= 2 ^ 63 < 2 ^ 64 /\
  (exists p',
      ensure_file_minimum_size Examples.data_handle (2 ^ 63)
        Examples.refused = Ret false p' /\
      errors p' =
        [Pushed EINVAL "Unable to extend file to size %s to %lu"
           [ArgS (lit "db/data"); ArgI (2 ^ 63)]]) /\
  exists len b p',
    len = (if 2 ^ 63 <? 2 ^ 63 then 2 ^ 63 else 2 ^ 63 - 2 ^ 64) /\
    ensure_file_minimum_size Examples.data_handle (2 ^ 63)
      Examples.refused = Ret b p' /\
    kernel p' =
      (k_fallocate (fd (hdr Examples.data_handle)) 0 0 len
         (kernel Examples.refused)).2 /\
    trace p' = trace Examples.refused /\
    if b then
      (k_fallocate (fd (hdr Examples.data_handle)) 0 0 len
         (kernel Examples.refused)).1 = SysOk tt /\
      errors p' = errors Examples.refused /\
      errno p' = errno Examples.refused
    else
      (k_fallocate (fd (hdr Examples.data_handle)) 0 0 len
         (kernel Examples.refused)).1 = SysErr (errno p') /\
      errors p' =
        errors Examples.refused ++
        [Pushed (errno p') "Unable to extend file to size %s to %lu"
           [ArgS (get_file_name Examples.data_handle); ArgI (2 ^ 63)]].
Proof.
  assert (H : 0 <= 2 ^ 63 < 2 ^ 64) by lia.
  split; [exact H|]. split.
  - eexists. split; [vm_compute; reflexivity | reflexivity].
  - exact (@ensure_file_minimum_size_spec Script.state Script.posix_mem
             Examples.data_handle (2 ^ 63) Examples.refused H).
Defined.

(** ** Failures leave an error *)

Section ErrorContext.
Context {K : Type} `{!Posix K}.
Implicit Types (p : proc K).

Lemma reported_failure p p' errs0 e :
  errors p' = errors p ++ errs0 ++ [e] ->
  exists errs, errors p' = errors p ++ errs /\ (false = true <-> errs = []).
Proof.
  intros He. exists (errs0 ++ [e]). split; [done|]. split; [done|].
  intros Hnil. by apply app_nil in Hnil as [_ ?].
Qed.

Lemma silent_success p p' :
  errors p' = errors p ->
  exists errs, errors p' = errors p ++ errs /\ (true = true <-> errs = []).
Proof. intros He. exists []. by rewrite app_nil_r. Qed.

Lemma fsync_parent_directory_errors file p ok file' p' :
  fsync_parent_directory file p = Ret (ok, file') p' ->
  exists errs, errors p' = errors p ++ errs /\ (ok = true <-> errs = []).
Proof.
  intros Hrun. unfold fsync_parent_directory in Hrun.
  run_call Hrun as [fd0 file1] p1 Hopen.
  assert (errors p1 = errors p) as He1.
  { destruct (strrchr file SLASH) as [i|].
    - run_step Hopen. run_call Hopen as fd1 p2 Hcall.
      apply posix_open_Ret_inv in Hcall as (? & _).
      by do 2 run_step Hopen.
    - run_call Hopen as fd1 p2 Hcall.
      apply posix_open_Ret_inv in Hcall as (? & _). by run_step Hopen. }
  destruct (fd0 =? -1).
  - do 3 run_step Hrun. eapply (reported_failure _ _ []). by chain.
  - run_call Hrun as r1 p2 Hsync.
    apply posix_fsync_Ret_inv in Hsync as (He2 & _).
    run_call Hrun as res1 p3 Hres1. run_call Hrun as r2 p4 Hclose.
    apply posix_close_Ret_inv in Hclose as (He4 & _).
    run_call Hrun as res2 p5 Hres2. run_step Hrun.
    destruct (negb (r1 =? 0)); destruct (negb (r2 =? 0));
      repeat (run_step Hres1); repeat (run_step Hres2).
    + eapply (reported_failure _ _ [_]). by chain.
    + eapply (reported_failure _ _ []). by chain.
    + eapply (reported_failure _ _ []). by chain.
    + apply silent_success. by chain.
Qed.

Lemma ensure_file_path_loop_errors fuel file cur st p ok file' p' :
  ensure_file_path_loop fuel file cur st p = Ret (ok, file') p' ->
  exists errs, errors p' = errors p ++ errs /\ (ok = true <-> errs = []).
Proof.
  revert file cur st p. induction fuel as [|fuel IH];
    intros file cur st p Hrun; simpl in Hrun; [done|].
  run_step Hrun. rename x into c. destruct (decide (c = NUL)); [done|].
  destruct (strchr (drop cur file) SLASH) as [off|] eqn:Hoff;
    [|run_step Hrun; by apply silent_success].
  run_step Hrun. run_call Hrun as [r st1] p1 Hstat.
  apply posix_stat_Ret_inv in Hstat as (He1 & _).
  destruct (negb (r =? 0)).
  - destruct (negb (S_ISDIR (st_mode st1))).
    + do 3 run_step Hrun. eapply (reported_failure _ _ []). by chain.
    + apply IH in Hrun. by rewrite He1 in Hrun.
  - run_call Hrun as r2 p2 Hmkdir.
    apply posix_mkdir_Ret_inv in Hmkdir as (He2 & _). run_step Hrun.
    destruct ((r2 =? -1) && negb (errno p2 =? EEXIST)).
    + do 3 run_step Hrun. eapply (reported_failure _ _ []). by chain.
    + run_call Hrun as [ok1 file2] p3 Hsync.
      apply fsync_parent_directory_errors in Hsync as (errs1 & He3 & Hok1).
      destruct ok1; simpl in Hrun.
      * apply IH in Hrun. assert (errs1 = []) as -> by by apply Hok1.
        rewrite app_nil_r in He3. by rewrite He3, He2, He1 in Hrun.
      * do 3 run_step Hrun. eapply (reported_failure _ _ errs1). by chain.
Qed.

Lemma ensure_file_path_errors junk file p ok file' p' :
  ensure_file_path junk file p = Ret (ok, file') p' ->
  exists errs, errors p' = errors p ++ errs /\ (ok = true <-> errs = []).
Proof.
  intros Hrun. unfold ensure_file_path in Hrun.
  run_call Hrun as [r st] p1 Hstat.
  apply posix_stat_Ret_inv in Hstat as (He1 & _).
  destruct (negb (r =? 0)).
  - destruct (S_ISDIR _).
    + do 2 run_step Hrun. eapply (reported_failure _ _ []). by chain.
    + run_step Hrun. by apply silent_success.
  - apply ensure_file_path_loop_errors in Hrun. by rewrite He1 in Hrun.
Qed.

Lemma create_file_open_errors isNew hd filename p b handle' p' :
  create_file_open isNew hd filename p = Ret (b, handle') p' ->
  exists errs, errors p' = errors p ++ errs /\ (b = true <-> errs = []).
Proof.
  intros Hrun. unfold create_file_open in Hrun.
  run_call Hrun as fd1 p1 Hopen.
  apply posix_open_Ret_inv in Hopen as (He1 & _).
  destruct (fd1 =? -1).
  { do 3 run_step Hrun. eapply (reported_failure _ _ []). by chain. }
  run_call Hrun as [ok filename'] p2 Hsync.
  assert (exists errs, errors p2 = errors p1 ++ errs /\ (ok = true <-> errs = []))
    as (errs1 & He2 & Hok).
  { destruct isNew; [by eapply fsync_parent_directory_errors|].
    run_step Hsync. by apply silent_success. }
  destruct ok; simpl in Hrun.
  - run_step Hrun. assert (errs1 = []) as -> by by apply Hok.
    apply silent_success. rewrite app_nil_r in He2. by chain.
  - run_step Hrun. run_call Hrun as r p4 Hclose.
    apply posix_close_Ret_inv in Hclose as (He4 & _).
    run_call Hrun as u p5 Hpush. run_step Hrun.
    destruct (r =? 0); repeat (run_step Hpush).
    + eapply (reported_failure _ _ (errs1 ++ [_])). chain. by simpl.
    + eapply (reported_failure _ _ errs1). by chain.
Qed.

(** X16: [create_file] returns false exactly when it has added to the
    error context.  A run that returns true leaves the errors as they
    were; a run that returns false has pushed, or marked, at least one,
    and none is ever removed. *)
Theorem create_file_errors (junk : indeterminate)
    (path name : list ascii) (handle : handle_mem) p b handle' p' :
  create_file junk path name handle p = Ret (b, handle') p' ->
  exists errs, errors p' = errors p ++ errs /\ (b = true <-> errs = []).
Proof.
  intros Hrun. unfold create_file in Hrun.
  run_call Hrun as h1 p0 Hset. apply defined_Ret_inv in Hset as [_ ->].
  run_call Hrun as [r st] p1 Hstat.
  apply posix_stat_Ret_inv in Hstat as (He1 & _).
  destruct (r =? 0).
  - run_call Hrun as [ok filename] p2 Hens.
    apply ensure_file_path_errors in Hens as (errs1 & He2 & Hok).
    destruct ok; simpl in Hrun.
    + apply create_file_open_errors in Hrun. assert (errs1 = []) as -> by by apply Hok.
      rewrite app_nil_r in He2. by rewrite He2, He1 in Hrun.
    + do 2 run_step Hrun. eapply (reported_failure _ _ errs1). by chain.
  - destruct (S_ISDIR _).
    + do 2 run_step Hrun. eapply (reported_failure _ _ []). by chain.
    + apply create_file_open_errors in Hrun. by rewrite He1 in Hrun.
Qed.

End ErrorContext.

(** The run of the example of C2 returns false and leaves errors. *)
Lemma create_file_errors_witness :
  exists handle' p',
    Examples.create_sync_fails = Ret (false, handle') p' /\
    length (errors p') = 3%nat /\
    exists errs,
      errors p' =
        errors (RefFS.start Examples.db_with_data Examples.sync_fails_plan)
        ++ errs /\
      (false = true <-> errs = []).
Proof.
  eexists _, _. split; [vm_compute; reflexivity|]. split; [reflexivity|].
  exact (@create_file_errors RefFS.state RefFS.posix Examples.junk
           (lit "db") (lit "data") Examples.fresh_handle
           (RefFS.start Examples.db_with_data Examples.sync_fails_plan)
           false _ _ ltac:(vm_compute; reflexivity)).
Defined.

(** ** A name that ends in a slash *)

Lemma bind_Ret {K A B} (m : M K A) (f : A -> M K B) p a p1 :
  m p = Ret a p1 -> (m ≫= f) p = f a p1.
Proof. intros Hm. unfold mbind, M_bind. by rewrite Hm. Qed.

Lemma bind_defined {K A B} (o : option A) (f : A -> M K B) p a :
  o = Some a -> (defined o ≫= f) p = f a p.
Proof. by intros ->. Qed.

Lemma strchr_first_slash c b :
  SLASH ∉ c -> NUL ∉ c -> strchr (c ++ SLASH :: b) SLASH = Some (length c).
Proof.
  induction c as [|x c IH]; intros Hs Hn; cbn [app strchr length].
  - by rewrite decide_True.
  - apply not_elem_of_cons in Hs as [Hx Hs].
    apply not_elem_of_cons in Hn as [Hx' Hn].
    rewrite !decide_False by done. by rewrite IH.
Qed.

Lemma strrchr_no_slash c b :
  SLASH ∉ c -> NUL ∉ c -> strrchr (c ++ NUL :: b) SLASH = None.
Proof.
  induction c as [|x c IH]; intros Hs Hn; cbn [app strrchr].
  - rewrite decide_True by done. by rewrite decide_False.
  - apply not_elem_of_cons in Hs as [Hx Hs].
    apply not_elem_of_cons in Hn as [Hx' Hn].
    rewrite decide_False by done. rewrite IH by done.
    by rewrite decide_False.
Qed.

Section RefFSRuns.
Import RefFS.
Implicit Types (k : state) (p : proc state).

Lemma posix_stat_found path st p pl n :
  faults (kernel p) = [] ->
  resolve (fs (kernel p)) path = Found pl n ->
  exists p1,
    posix_stat path st p = Ret (0, stat_of n) p1 /\ kernel p1 = kernel p.
Proof.
  intros Hplan Hres. destruct p as [[tree open next plan] e errs tr].
  simpl in *. subst plan. eexists. split.
  - unfold posix_stat, sys, mbind, M_bind, mret, M_ret.
    cbn [kernel k_stat posix]. unfold faulty. cbn [faults fs tail].
    unfold do_stat. cbn [fs]. rewrite Hres. reflexivity.
  - reflexivity.
Qed.

Lemma posix_mkdir_found path mode p pl n :
  faults (kernel p) = [] ->
  resolve (fs (kernel p)) path = Found pl n ->
  exists p1,
    posix_mkdir path mode p = Ret (-1) p1 /\ kernel p1 = kernel p /\
    errno p1 = EEXIST.
Proof.
  intros Hplan Hres. destruct p as [[tree open next plan] e errs tr].
  simpl in *. subst plan. eexists. split.
  - unfold posix_mkdir, sys, mbind, M_bind, mret, M_ret.
    cbn [kernel k_mkdir posix]. unfold faulty. cbn [faults fs tail].
    unfold do_mkdir. cbn [fs]. rewrite Hres. reflexivity.
  - split; reflexivity.
Qed.

(** The working directory is opened, synced and closed. *)
Lemma fsync_parent_directory_here file p :
  faults (kernel p) = [] ->
  strrchr file SLASH = None ->
  exists p1,
    fsync_parent_directory file p = Ret (true, file) p1 /\
    faults (kernel p1) = [] /\ fs (kernel p1) = fs (kernel p).
Proof.
  intros Hplan Hlast. destruct p as [[tree open next plan] e errs tr].
  simpl in *. subst plan. eexists. split.
  - unfold fsync_parent_directory. rewrite Hlast.
    unfold posix_open, posix_fsync, posix_close, sys, get_errno,
      mbind, M_bind, mret, M_ret.
    cbn [kernel k_open k_fsync k_close posix]. unfold faulty at 1.
    cbn [faults fs fds next_fd tail].
    change (do_open (lit ".") O_RDONLY 0 ?k) with (open_at [] (fs k) k).
    unfold open_at. cbn [faults fs fds next_fd tail fst snd kernel].
    destruct (Z.eqb_spec (Z.of_N next) (-1)) as [Hneg|_]; [lia|].
    cbn [kernel k_fsync]. unfold faulty at 1.
    cbn [faults fs fds next_fd tail]. unfold do_fsync, descriptor.
    destruct (Z.ltb_spec (Z.of_N next) 0); [lia|].
    cbn [fds]. rewrite N2Z.id, lookup_insert_eq.
    cbn [kernel k_close negb]. change (0 =? 0) with true. cbv iota.
    cbn [negb kernel]. unfold faulty.
    cbn [faults fs fds next_fd tail]. unfold do_close, descriptor.
    destruct (Z.ltb_spec (Z.of_N next) 0); [lia|].
    cbn [fds]. rewrite N2Z.id, lookup_insert_eq. reflexivity.
  - split; reflexivity.
Qed.

End RefFSRuns.

Section TrailingSlash.
Import RefFS.
Implicit Types (k : state) (p : proc state).

Lemma resolve_directory tree c :
  c <> [] -> SLASH ∉ c -> c <> lit "." -> c <> lit ".." ->
  tree !! [c] = Some Dir ->
  resolve tree c = Found [c] Dir /\
  resolve tree (c ++ [SLASH]) = Found [c] Dir.
Proof.
  intros Hne Hs Hdot Hdots Hdir.
  rewrite !resolve_nonempty by (by destruct c).
  rewrite split_slash_component, split_slash_single by done.
  cbn [split_slash walk app].
  rewrite !(decide_False (P := c = [] \/ c = lit ".")) by (by intros [?|?]).
  rewrite !(decide_False (P := c = lit "..")) by done.
  rewrite Hdir. cbn [walk]. split; [done|].
  by rewrite decide_True by (by left).
Qed.

(** A name of one directory and a slash after it: the loop of
    [ensure_file_path] goes round once and is left with [*cur] zero, so
    the end of the function is reached with no [return]. *)
Lemma ensure_file_path_trailing_slash junk c rest p :
  faults (kernel p) = [] ->
  c <> [] -> SLASH ∉ c -> NUL ∉ c -> c <> lit "." -> c <> lit ".." ->
  fs (kernel p) !! [c] = Some Dir ->
  ensure_file_path junk (c ++ SLASH :: NUL :: rest) p = Undefined.
Proof.
  intros Hplan Hne Hs Hn Hdot Hdots Hdir.
  destruct (resolve_directory _ _ Hne Hs Hdot Hdots Hdir) as [Hres1 Hres2].
  set (file := c ++ SLASH :: NUL :: rest).
  assert (Hstr : c_str file = c ++ [SLASH]).
  { unfold file. rewrite c_str_app by done. cbn [c_str].
    rewrite decide_False by done. by rewrite decide_True. }
  assert (Hoff : strchr file SLASH = Some (length c))
    by by apply strchr_first_slash.
  assert (Hcut : <[length c := NUL]> file = c ++ NUL :: NUL :: rest).
  { unfold file. rewrite insert_app_r_alt, Nat.sub_diag by lia. done. }
  assert (Hlen : length file = S (S (length c + length rest))).
  { unfold file. rewrite length_app. simpl. lia. }
  unfold ensure_file_path. rewrite Hstr.
  destruct (posix_stat_found (c ++ [SLASH]) (junk_ensure_file_path junk)
              p _ _ Hplan Hres2) as (p1 & Hrun1 & Hk1).
  rewrite (bind_Ret _ _ _ _ _ Hrun1). cbn [negb]. change (0 =? 0) with true.
  cbv iota. cbn [negb]. cbv iota.
  cbn [ensure_file_path_loop].
  assert (exists c0, file !! 0%nat = Some c0 /\ c0 <> NUL) as (c0 & H0 & Hc0).
  { unfold file. destruct c as [|c0 c']; [done|]. exists c0. split; [done|].
    intros ->. apply Hn. apply list_elem_of_here. }
  rewrite (bind_defined _ _ _ _ H0). cbv beta.
  rewrite decide_False by done. rewrite drop_0, Hoff. cbv beta iota zeta.
  rewrite Nat.add_0_l.
  rewrite (bind_defined _ _ _ (<[length c := NUL]> file))
    by (unfold store; by rewrite decide_True by lia).
  cbv beta. rewrite Hcut.
  set (file1 := c ++ NUL :: NUL :: rest).
  assert (Hstr1 : c_str file1 = c) by by apply c_str_nul.
  rewrite Hstr1.
  assert (Hplan1 : faults (kernel p1) = []) by by rewrite Hk1.
  assert (Hres1' : resolve (fs (kernel p1)) c = Found [c] Dir)
    by by rewrite Hk1.
  destruct (posix_stat_found c (stat_of Dir) p1 _ _ Hplan1 Hres1')
    as (p2 & Hrun2 & Hk2).
  rewrite (bind_Ret _ _ _ _ _ Hrun2). cbn [negb]. change (0 =? 0) with true.
  cbv iota. cbn [negb]. cbv iota.
  assert (Hplan2 : faults (kernel p2) = []) by by rewrite Hk2.
  assert (Hres2' : resolve (fs (kernel p2)) c = Found [c] Dir)
    by by rewrite Hk2.
  destruct (posix_mkdir_found c S_IRWXU p2 _ _ Hplan2 Hres2')
    as (p3 & Hrun3 & Hk3 & He3).
  rewrite (bind_Ret _ _ _ _ _ Hrun3).
  rewrite (bind_Ret get_errno _ p3 (errno p3) p3) by done. cbv beta.
  rewrite He3.
  change ((-1 =? -1) && negb (EEXIST =? EEXIST)) with false. cbv iota.
  assert (Hplan3 : faults (kernel p3) = []) by by rewrite Hk3.
  destruct (fsync_parent_directory_here file1 p3 Hplan3)
    as (p4 & Hrun4 & _); [by apply strrchr_no_slash|].
  rewrite (bind_Ret _ _ _ _ _ Hrun4). cbn [negb]. cbv iota.
  rewrite Hlen. cbn [ensure_file_path_loop].
  assert (H1 : file1 !! (length c + 1)%nat = Some NUL).
  { unfold file1. rewrite lookup_app_r by lia.
    by replace (length c + 1 - length c)%nat with 1%nat by lia. }
  rewrite (bind_defined _ _ _ _ H1). cbv beta.
  by rewrite decide_True.
Qed.

(** X17: [create_file] with an empty [name] has undefined behaviour
    when [path] is a directory that is there (on the reference file
    system, with no failure injected).  The name made is [path/], [stat]
    succeeds on it, and [ensure_file_path], after one turn of its loop,
    leaves it through the end of the function, which returns no value
    for [create_file] to test. *)
Theorem create_file_empty_name (junk : indeterminate)
    (path name : list ascii) (handle : handle_mem) p :
  faults (kernel p) = [] ->
  c_str name = [] ->
  c_str path <> [] -> SLASH ∉ c_str path ->
  c_str path <> lit "." -> c_str path <> lit ".." ->
  fs (kernel p) !! [c_str path] = Some Dir ->
  (strlen path + 2 <= length (inline handle))%nat ->
  create_file junk path name handle p = Undefined.
Proof.
  intros Hplan Hname Hne Hs Hdot Hdots Hdir Hroom.
  assert (Hn0 : strlen name = 0%nat) by (unfold strlen; by rewrite Hname).
  pose proof (set_file_name_Some path name handle ltac:(lia)) as Hset.
  rewrite Hname, Hn0 in Hset. cbn [app] in Hset.
  destruct (resolve_directory _ _ Hne Hs Hdot Hdots Hdir) as [_ Hres].
  unfold create_file. rewrite (bind_defined _ _ _ _ Hset). cbv beta zeta.
  cbn [inline hdr].
  set (rest := drop _ (inline handle)).
  assert (Hstr : c_str (c_str path ++ SLASH :: NUL :: rest)
                 = c_str path ++ [SLASH]).
  { rewrite c_str_app by apply c_str_nul_free. cbn [c_str].
    rewrite decide_False by done. by rewrite decide_True. }
  rewrite Hstr.
  destruct (posix_stat_found (c_str path ++ [SLASH]) (junk_create_file junk)
              p _ _ Hplan Hres) as (p1 & Hrun1 & Hk1).
  rewrite (bind_Ret _ _ _ _ _ Hrun1). change (0 =? 0) with true. cbv iota.
  unfold mbind, M_bind.
  rewrite ensure_file_path_trailing_slash;
    rewrite ?Hk1; auto using c_str_nul_free.
Qed.

End TrailingSlash.

(** [create_file("db", "", handle)] where [db] exists. *)
Lemma create_file_empty_name_witness :
  RefFS.fs (kernel (RefFS.start Examples.empty_db [])) !! [lit "db"]
    = Some RefFS.Dir /\
  get_file_handle_size (Some (lit "db")) (Some (lit "")) = 0 /\
  create_file Examples.junk (lit "db") (lit "") Examples.fresh_handle
    (RefFS.start Examples.empty_db []) = Undefined.
Proof.
  split; [vm_compute; reflexivity|]. split; [reflexivity|].
  exact (create_file_empty_name Examples.junk (lit "db") (lit "")
           Examples.fresh_handle (RefFS.start Examples.empty_db [])
           ltac:(reflexivity) ltac:(reflexivity)
           ltac:(vm_compute; discriminate)
           ltac:(apply (bool_decide_unpack _); vm_compute; exact I)
           ltac:(vm_compute; discriminate) ltac:(vm_compute; discriminate)
           ltac:(vm_compute; reflexivity) ltac:(vm_compute; lia)).
Defined.

(** ** More record layouts *)

(** X18: the two members of the union in [page_metadata_t] are
    interchangeable where it matters: [page_metadata_common_t] and
    [file_header_t] have the same size, 32 bytes, and each starts with
    its one-byte [page_flags] at offset 0, so the flags read through
    [common] are the flags of the file header; neither struct has
    padding the compiler inserts. *)
Theorem page_flags_shared :
  offsetof page_metadata_semantic "common" = Some 0 /\
  offsetof page_metadata_semantic "file_header" = Some 0 /\
  offsetof page_metadata_common_t "page_flags" = Some 0 /\
  offsetof file_header_t "page_flags" = Some 0 /\
  assoc "page_flags" (fields_of page_metadata_common_t) = Some page_flags_t /\
  assoc "page_flags" (fields_of file_header_t) = Some page_flags_t /\
  sizeof page_flags_t = 1 /\
  sizeof page_metadata_common_t = sizeof file_header_t /\
  fields_size page_metadata_common_t = sizeof page_metadata_common_t /\
  fields_size file_header_t = sizeof file_header_t.
Proof. repeat split; vm_compute; congruence. Qed.

(** X19: [page_t] is 32 bytes and [db_options_t] is 72: their
    [_padding] members fill what the compiler would otherwise insert, so
    every field starts where the one before it ends and the size of each
    struct is the sum of the sizes of its fields. *)
Theorem explicit_padding_layout :
  map (fun f => (f.1, (f.2.1, sizeof f.2.2)))
      (field_offsets (fields_of page_t) 0)
  = [("address", (0, 8)); ("previous", (8, 8)); ("page_num", (16, 8));
     ("size", (24, 4)); ("_padding", (28, 4))] /\
  sizeof page_t = 32 /\ fields_size page_t = sizeof page_t /\
  map (fun f => (f.1, (f.2.1, sizeof f.2.2)))
      (field_offsets (fields_of db_options_t) 0)
  = [("minimum_size", (0, 8)); ("maximum_size", (8, 8)); ("wal_size", (16, 8));
     ("encryption_key", (24, 32)); ("encrypted", (56, 4));
     ("page_validation", (60, 4)); ("avoid_mmap_io", (64, 4));
     ("_padding", (68, 4))] /\
  sizeof db_options_t = 72 /\ fields_size db_options_t = sizeof db_options_t.
Proof. repeat split; vm_compute; congruence. Qed.

(** ** More on the housekeeping functions *)

Section HousekeepingMore.
Context {K : Type} `{!Posix K}.
Implicit Types (p : proc K).

(** X20: [ensure_file_path] makes no directory for a path that is not
    there.  When its first [stat] fails, [st] is left uninitialised and
    the function returns at once, having made no other call: true when
    the garbage in [st] does not look like a directory, and false with
    [EISDIR] pushed when it does.  The buffer is not written. *)
Theorem ensure_file_path_of_missing_path (junk : indeterminate)
    (file : list ascii) p e k :
  k_stat (c_str file) (kernel p) = (SysErr e, k) ->
  exists p',
    ensure_file_path junk file p
      = Ret (negb (S_ISDIR (st_mode (junk_ensure_file_path junk))), file) p' /\
    kernel p' = k /\
    trace p' = trace p ++ [EvStat (c_str file) (-1)] /\
    errors p' =
      errors p ++
      (if S_ISDIR (st_mode (junk_ensure_file_path junk))
       then [Pushed EISDIR "The path '%s' is a directory, expected a file"
               [ArgS (c_str file)]]
       else []).
Proof.
  intros Hk.
  unfold ensure_file_path, posix_stat, sys, push_error,
    mbind, M_bind, mret, M_ret.
  rewrite Hk. cbn [negb fst snd]. change (-1 =? 0) with false. cbv iota.
  cbn [negb]. cbv iota.
  destruct (S_ISDIR _); eexists; (split; [reflexivity|]); simpl;
    rewrite ?app_nil_r; done.
Qed.

(** X21: every run of [ensure_file_path] and of [create_file] ends.  A
    turn of the [while] loop moves [cur] at least one byte to the right
    and never past the end of the buffer, so the loop makes at most one
    turn per byte of the name: a run returns or meets undefined
    behaviour, and never goes on for ever. *)
Theorem create_file_terminates (junk : indeterminate)
    (path name file : list ascii) (handle : handle_mem) p :
  ensure_file_path junk file p <> OutOfFuel /\
  create_file junk path name handle p <> OutOfFuel.
Proof.
  split; [apply ensure_file_path_finishes | apply create_file_finishes].
Qed.

End HousekeepingMore.

(** There is no directory [var]: [ensure_file_path("var/data")] makes
    none and returns true. *)
Lemma ensure_file_path_of_missing_path_witness :
  exists p',
    ensure_file_path Examples.junk (lit "var/data" ++ [NUL])
      (RefFS.start Examples.empty_db [])
      = Ret (true, lit "var/data" ++ [NUL]) p' /\
    RefFS.fs (kernel p') = Examples.empty_db /\
    trace p' = [EvStat (lit "var/data") (-1)] /\
    errors p' = [].
Proof.
  destruct (@ensure_file_path_of_missing_path RefFS.state RefFS.posix
              Examples.junk (lit "var/data" ++ [NUL])
              (RefFS.start Examples.empty_db [])
              ENOENT _ ltac:(vm_compute; reflexivity))
    as (p' & Hrun & Hk & Ht & He).
  exists p'. split; [exact Hrun|]. split; [by rewrite Hk|].
  split; [exact Ht | exact He].
Defined.

(** ** The bytes [set_file_name] writes *)

(** X22: [set_file_name] writes [path], a slash, [name] and a
    terminator at the start of the name area of the handle, and nothing
    else: the bytes after them, the length of the area and the
    descriptor are as they were.  It is defined exactly when the area
    has room for those bytes. *)
Theorem set_file_name_frame (path name : list ascii) (handle : handle_mem) :
  let n := (strlen path + 1 + strlen name + 1)%nat in
  (is_Some (set_file_name path name handle) <->
   (n <= length (inline handle))%nat) /\
  forall handle',
    set_file_name path name handle = Some handle' ->
    take n (inline handle') = c_str path ++ SLASH :: c_str name ++ [NUL] /\
    drop n (inline handle') = drop n (inline handle) /\
    length (inline handle') = length (inline handle) /\
    hdr handle' = hdr handle.
Proof.
  intros n. split.
  - split.
    + intros [h' Hset]. by apply set_file_name_Some_inv in Hset.
    + intros Hroom. rewrite set_file_name_Some by done. by eexists.
  - intros handle' Hset.
    pose proof (set_file_name_Some_inv _ _ _ _ Hset) as Hroom.
    pose proof (set_file_name_get_file_name _ _ _ _ Hset) as (_ & Hhdr & Hlen).
    rewrite set_file_name_Some in Hset by done. injection Hset as <-.
    cbn [inline hdr] in *.
    set (rest := drop _ (inline handle)) in *.
    assert (Hn : length (c_str path ++ SLASH :: c_str name ++ [NUL]) = n).
    { rewrite length_app. cbn [length]. rewrite length_app. cbn [length].
      unfold n, strlen. lia. }
    replace (c_str path ++ SLASH :: c_str name ++ NUL :: rest)
      with ((c_str path ++ SLASH :: c_str name ++ [NUL]) ++ rest)
      by (rewrite <- !app_assoc; cbn [app]; by rewrite <- app_assoc).
    split; [by rewrite take_app_length' | ].
    split; [by rewrite drop_app_length' | ].
    split; [|done].
    rewrite length_app, Hn. unfold rest. rewrite length_drop. unfold n in *. lia.
Qed.

(** ** What [fsync_parent_directory] does with the answers of the kernel *)

Section SyncParent.
Context {K : Type} `{!Posix K}.
Implicit Types (p : proc K).

(** The two writes to the name: the cut at the last slash names the
    parent, and the second write puts the slash back. *)
Lemma cut_at_last_slash file i :
  strrchr file SLASH = Some i ->
  store file i NUL = Some (<[i := NUL]> file) /\
  c_str (<[i := NUL]> file) = parent_name file /\
  store (<[i := NUL]> file) i SLASH = Some file.
Proof.
  intros Hlast. unfold parent_name. rewrite Hlast.
  apply strrchr_Some in Hlast as [Hi Hn].
  pose proof (lookup_lt_Some _ _ _ Hi) as Hlt.
  split; [by apply store_Some|]. split; [by apply c_str_insert_nul|].
  rewrite store_Some by (by rewrite length_insert).
  by rewrite list_insert_insert_eq, list_insert_id.
Qed.

(** X7: [fsync_parent_directory] always returns, with the name as it
    was, and what it does follows the answers of the kernel.  It opens,
    read-only, the name up to its last slash (or [.] when it has none).
    When that [open] fails it makes no other call, pushes the error of
    the [open] and returns false.  Otherwise it calls [fsync] on the
    descriptor and then [close], whether or not [fsync] succeeded; it
    returns true exactly when both succeeded, and pushes the error of
    each of the two that failed, in that order, and nothing else. *)
Theorem fsync_parent_directory_spec (file : list ascii) p :
  exists ok p',
    fsync_parent_directory file p = Ret (ok, file) p' /\
    match k_open (parent_name file) O_RDONLY 0 (kernel p) with
    | (SysErr e, k1) =>
        ok = false /\ kernel p' = k1 /\
        trace p' = trace p ++ [EvOpen (parent_name file) O_RDONLY 0 (-1)] /\
        errors p' =
          errors p ++
          [Pushed e "Unable to open parent directory of: %s"
             [ArgS (c_str file)]]
    | (SysOk n, k1) =>
        let synced := k_fsync (Z.of_N n) k1 in
        let closed := k_close (Z.of_N n) synced.2 in
        ok = succeeded synced.1 && succeeded closed.1 /\
        kernel p' = closed.2 /\
        trace p' =
          trace p ++
          [EvOpen (parent_name file) O_RDONLY 0 (Z.of_N n);
           EvFsync (Z.of_N n) (int_result synced.1);
           EvClose (Z.of_N n) (int_result closed.1)] /\
        errors p' =
          errors p ++
          reported synced.1 "Failed to fsync parent directory of: %s"
            [ArgS (c_str file)] ++
          reported closed.1
            "Failed to close (after fsync) parent directory of: %s"
            [ArgS (c_str file)]
    end.
Proof.
  assert (Hopen : forall fd1 p1,
    posix_open (parent_name file) O_RDONLY 0 p = Ret fd1 p1 ->
    (match strrchr file SLASH with
     | Some last =>
         file ← defined (store file last NUL);
         fd ← posix_open (c_str file) O_RDONLY 0;
         file ← defined (store file last SLASH);
         mret (fd, file)
     | None => fd ← posix_open (lit ".") O_RDONLY 0; mret (fd, file)
     end : M K (Z * list ascii)) p = Ret (fd1, file) p1).
  { intros fd1 p1 Hrun. destruct (strrchr file SLASH) as [i|] eqn:Hlast.
    - destruct (cut_at_last_slash _ _ Hlast) as (Hcut & Hname & Hback).
      rewrite (bind_defined _ _ _ _ Hcut). cbv beta. rewrite Hname.
      rewrite (bind_Ret _ _ _ _ _ Hrun). cbv beta.
      by rewrite (bind_defined _ _ _ _ Hback).
    - unfold parent_name in Hrun. rewrite Hlast in Hrun.
      by rewrite (bind_Ret _ _ _ _ _ Hrun). }
  unfold fsync_parent_directory.
  unfold posix_open, sys, mbind at 1, M_bind at 1, mret at 1, M_ret at 1
    in Hopen.
  destruct (k_open (parent_name file) O_RDONLY 0 (kernel p))
    as [[n|e] k1] eqn:Hk.
  - rewrite (bind_Ret _ _ _ _ _ (Hopen _ _ eq_refl)). cbv beta iota.
    destruct (Z.eqb_spec (Z.of_N n) (-1)) as [Hneg|_]; [lia|].
    unfold posix_fsync, posix_close, sys, get_errno, push_error,
      mbind, M_bind, mret, M_ret. cbn [kernel].
    destruct (k_fsync (Z.of_N n) k1) as [[[]|e1] k2]; cbn;
      destruct (k_close (Z.of_N n) k2) as [[[]|e2] k3]; cbn;
      eexists _, _; (split; [reflexivity|]); cbn;
      rewrite <- ?app_assoc, ?app_nil_r; done.
  - rewrite (bind_Ret _ _ _ _ _ (Hopen _ _ eq_refl)). cbv beta iota.
    change (-1 =? -1) with true. cbv iota.
    unfold get_errno, push_error, mbind, M_bind, mret, M_ret. cbn.
    eexists _, _. split; [reflexivity|]. done.
Qed.

End SyncParent.

(** [db] exists: its descriptor is opened, synced and closed. *)
Lemma fsync_parent_directory_spec_witness :
  exists p',
    Examples.sync_parent = Ret (true, lit "db/data" ++ [NUL]) p' /\
    trace p' = [EvOpen (lit "db") O_RDONLY 0 3; EvFsync 3 0; EvClose 3 0] /\
    errors p' = [].
Proof.
  destruct (@fsync_parent_directory_spec RefFS.state RefFS.posix
              (lit "db/data" ++ [NUL]) (RefFS.start Examples.db_with_data []))
    as (ok & p' & Hrun & Hspec).
  exists p'.
  assert (ok = true /\
          trace p' = [EvOpen (lit "db") O_RDONLY 0 3; EvFsync 3 0; EvClose 3 0] /\
          errors p' = []) as (-> & Ht & He).
  { revert Hspec. vm_compute. tauto. }
  split; [exact Hrun|]. split; [exact Ht | exact He].
Defined.
